(** * benthos-umh, package opcua_plugin: core_read.go

    A shallow embedding of [getBytesFromValue] (the value codec) and of
    [Read] (the read coordinator) of the OPC UA input plugin, with the
    properties of the specification proved over it.

    Conventions of the embedding:
    - a Go [string] is a [string]; a Go [[]byte] is a [slice]
      ([None] is the nil slice, [Some l] a non-nil slice of contents [l]);
    - a Go pointer is an [option]; reading a field through [None]
      panics;
    - fixed-width integers are [Z] with the wrap-around of conversions
      written out;
    - the logger is a list of structured log calls, threaded through the
      codec by a small logging-and-panic monad. *)

From Stdlib Require Import ZArith List String Ascii Bool Lia.
Import ListNotations.
Local Open Scope string_scope.
Local Open Scope Z_scope.

Set Implicit Arguments.

(** ** Package strconv: integer formatting

    [strconv.FormatInt], [strconv.FormatUint], [strconv.Itoa] and
    [strconv.FormatBool] for base 10, following itoa.go: the fast path
    [small] for values below [nSmalls], and [formatBits], which peels
    two digits per iteration off the value through the table
    [smallsString]. *)

Module strconv.

Definition nSmalls : Z := 100.

Definition smallsString : string :=
  "00010203040506070809" ++
  "10111213141516171819" ++
  "20212223242526272829" ++
  "30313233343536373839" ++
  "40414243444546474849" ++
  "50515253545556575859" ++
  "60616263646566676869" ++
  "70717273747576777879" ++
  "80818283848586878889" ++
  "90919293949596979899".

Definition digits : string := "0123456789abcdefghijklmnopqrstuvwxyz".

(** [s[i]] for a table lookup that is in range by construction. *)
Definition index (s : string) (i : Z) : ascii :=
  match String.get (Z.to_nat i) s with
  | Some c => c
  | None => zero
  end.

Definition wrap64 (x : Z) : Z := x mod 2 ^ 64.

(** [small(i)], for [0 <= i < nSmalls]. *)
Definition small (i : Z) : string :=
  if i <? 10 then String.substring (Z.to_nat i) 1 digits
  else String.substring (Z.to_nat (i * 2)) 2 smallsString.

(** The loop [for us >= 100 { ... }] of [formatBits] followed by the
    code for the last one or two digits.  The loop writes into a 65-byte
    buffer from its end, two bytes per iteration; [fuel] bounds the
    iterations by what the buffer can take. *)
Fixpoint formatBits_loop (fuel : nat) (us : Z) (a : string) : string :=
  match fuel with
  | O => a
  | S fuel' =>
      if 100 <=? us then
        let is' := us mod 100 * 2 in
        formatBits_loop fuel' (us / 100)
          (String (index smallsString is') (String (index smallsString (is' + 1)) a))
      else
        let is' := us * 2 in
        let a := String (index smallsString (is' + 1)) a in
        if 10 <=? us then String (index smallsString is') a else a
  end.

Definition buffer_iterations : nat := 32.

(** [formatBits(nil, u, 10, neg, false)]; [u] is a uint64. *)
Definition formatBits (u : Z) (neg : bool) : string :=
  let u := if neg then wrap64 (- u) else u in
  let a := formatBits_loop buffer_iterations u "" in
  if neg then String "-" a else a.

(** [FormatUint(i, 10)]; [i] is a uint64. *)
Definition FormatUint (i : Z) : string :=
  if i <? nSmalls then small i else formatBits i false.

(** [FormatInt(i, 10)]; [i] is an int64, [uint64(i)] wraps. *)
Definition FormatInt (i : Z) : string :=
  if (0 <=? i) && (i <? nSmalls) then small i
  else formatBits (wrap64 i) (i <? 0).

(** [Itoa(i)] is [FormatInt(int64(i), 10)]; [int] is 64 bits wide. *)
Definition Itoa (i : Z) : string := FormatInt i.

Definition FormatBool (b : bool) : string :=
  if b then "true" else "false".

(** *** Reading decimal text back

    The value denoted by a decimal numeral, used to say what "the
    base-10 text of v" is: Horner evaluation of the digits, with an
    optional leading minus sign. *)

Definition digit_value (c : ascii) : option Z :=
  let n := Z.of_N (N_of_ascii c) in
  if (48 <=? n) && (n <=? 57) then Some (n - 48) else None.

Fixpoint parse_digits (acc : Z) (s : string) : option Z :=
  match s with
  | EmptyString => Some acc
  | String c s' =>
      match digit_value c with
      | Some d => parse_digits (10 * acc + d) s'
      | None => None
      end
  end.

Definition ParseUint (s : string) : option Z :=
  match s with
  | EmptyString => None
  | _ => parse_digits 0 s
  end.

Definition ParseInt (s : string) : option Z :=
  match s with
  | String c s' =>
      if Ascii.eqb c "-" then option_map Z.opp (ParseUint s') else ParseUint s
  | EmptyString => None
  end.

(** A numeral without sign is in minimal form when it is ["0"] or
    starts with a digit from 1 to 9. *)
Definition minimal_unsigned (s : string) : bool :=
  match s with
  | EmptyString => false
  | String c EmptyString => match digit_value c with Some _ => true | None => false end
  | String c _ => match digit_value c with Some d => 0 <? d | None => false end
  end.

(** A signed numeral is in minimal form when it is a minimal unsigned
    numeral, or a minus sign followed by a minimal unsigned numeral
    other than ["0"]. *)
Definition minimal_signed (s : string) : bool :=
  match s with
  | String c s' =>
      if Ascii.eqb c "-" then minimal_unsigned s' && negb (String.eqb s' "0")
      else minimal_unsigned s
  | EmptyString => false
  end.

(** The character of a decimal digit. *)
Definition digit_char (d : Z) : ascii := ascii_of_N (Z.to_N (48 + d)).

(** What the digits [d] written for the value [us] satisfy: read after
    any prefix they extend its value by [us], and they start with a
    non-zero digit unless [us] is zero and [d] is the single digit. *)
Record writes (d : string) (us : Z) : Prop := {
  writes_value : forall acc, parse_digits acc d = Some (acc * 10 ^ Z.of_nat (String.length d) + us);
  writes_head : exists c r x, d = String c r /\ digit_value c = Some x /\
                              (0 < us -> 0 < x) /\ (us = 0 -> r = "")
}.

End strconv.

(** ** Byte slices *)

Definition byte : Type := Corelib.Init.Byte.byte.

(** A Go [[]byte]: [None] is the nil slice, [Some l] is a non-nil slice
    holding [l]; [Some []] is the empty slice that is not nil. *)
Definition slice := option (list byte).

(** [make([]byte, 0)]. *)
Definition make_bytes : slice := Some [].

(** [[]byte(s)]. *)
Definition bytes_of_string (s : string) : list byte := list_byte_of_string s.

(** [append(b, xs...)]: appending nothing to the nil slice leaves it
    nil, every other result is a non-nil slice. *)
Definition append (b : slice) (xs : list byte) : slice :=
  match b with
  | Some l => Some (l ++ xs)%list
  | None => match xs with [] => None | _ => Some xs end
  end.

(** ** Errors and package errors *)

(** An OPC UA status code, a uint32. *)
Definition StatusCode := Z.

(** Go error values as far as the plugin tells them apart: a
    [ua.StatusCode] used as an error, a leaf made by [errors.New], an
    error wrapping another ([fmt.Errorf] with [%w]), and a join of
    several errors ([errors.Join]). *)
#[warnings="-register-all"]
Inductive error : Type :=
| StatusError (c : StatusCode)
| ErrorString (msg : string)
| WrapError (msg : string) (err : error)
| JoinError (errs : list error).

(** [errors.Is(err, target)] for a [target] that is a [ua.StatusCode]:
    [err] itself or an error reached from it by unwrapping is that
    status code. *)
Fixpoint errors_Is (err : error) (target : StatusCode) : bool :=
  match err with
  | StatusError c => c =? target
  | ErrorString _ => false
  | WrapError _ err' => errors_Is err' target
  | JoinError errs =>
      (fix any (l : list error) : bool :=
         match l with
         | [] => false
         | e :: l' => errors_Is e target || any l'
         end) errs
  end.

(** The unwrapping relation [errors.Is] walks: [Unwraps err e] when
    [e] is [err] or is reached from [err] through [Unwrap]. *)
Inductive Unwraps : error -> error -> Prop :=
| Unwraps_refl : forall e, Unwraps e e
| Unwraps_wrap : forall msg err e, Unwraps err e -> Unwraps (WrapError msg err) e
| Unwraps_join : forall errs err e, In err errs -> Unwraps err e -> Unwraps (JoinError errs) e.

(** ** Package ua: status codes and values *)

Module ua.

Definition StatusOK : StatusCode := 0x0.
Definition StatusBadCommunicationError : StatusCode := 0x80050000.
Definition StatusBadTimeout : StatusCode := 0x800A0000.
Definition StatusBadServerNotConnected : StatusCode := 0x800D0000.
Definition StatusBadDataTypeIDUnknown : StatusCode := 0x80110000.
Definition StatusBadSessionIDInvalid : StatusCode := 0x80250000.
Definition StatusBadNodeIDUnknown : StatusCode := 0x80340000.
Definition StatusBadConnectionRejected : StatusCode := 0x80AC0000.
Definition StatusBadConnectionClosed : StatusCode := 0x80AE0000.

End ua.

(** ** What the plugin takes from its libraries

    The parts of gopcua, strconv and encoding/json whose results the
    codec passes on without looking inside them. *)
Class Runtime : Type := {
  (** Go's [float32] and [float64]. *)
  float32 : Type;
  float64 : Type;
  (** [strconv.FormatFloat(float64(v), 'f', -1, 32)]. *)
  FormatFloat32 : float32 -> string;
  (** [strconv.FormatFloat(v, 'f', -1, 64)]. *)
  FormatFloat64 : float64 -> string;
  (** The Go values an [interface{}] holds besides the types the codec
      names: decoded structures and the other variant contents. *)
  iface : Type;
  (** [json.Marshal(v)]: the encoding, or the error. *)
  json_Marshal : iface -> list byte + error;
  (** [ua.NodeID] and its method [String]. *)
  NodeID : Type;
  NodeID_String : NodeID -> string
}.

(** [json.Marshal] of a non-empty [[]interface{}]: the encodings of
    the elements between brackets, separated by commas; the first
    element that fails to encode fails the whole. *)
Fixpoint json_elements `{Runtime} (l : list iface) : list byte + error :=
  match l with
  | [] => inl []
  | x :: l' =>
      match json_Marshal x with
      | inr err => inr err
      | inl bx =>
          match l' with
          | [] => inl bx
          | _ =>
              match json_elements l' with
              | inr err => inr err
              | inl bl => inl (bx ++ bytes_of_string "," ++ bl)%list
              end
          end
      end
  end.

Definition json_Marshal_slice `{Runtime} (l : list iface) : list byte + error :=
  match json_elements l with
  | inr err => inr err
  | inl bl => inl (bytes_of_string "[" ++ bl ++ bytes_of_string "]")%list
  end.

Module ExpandedNodeID.
Record t `{Runtime} : Type := Build {
  NodeID : option NodeID;
  NamespaceURI : string;
  ServerIndex : Z
}.
End ExpandedNodeID.

Module ExtensionObject.
(** [Value] is an [interface{}]: [None] when gopcua had no registered
    type to decode the body into. *)
Record t `{Runtime} : Type := Build {
  EncodingMask : Z;
  TypeID : option ExpandedNodeID.t;
  Value : option iface
}.
End ExtensionObject.

(** The dynamic type of [variant.Value()], one constructor per case of
    the type switch; [VOther] is the default case.  Integers carry the
    bits as a [Z]; slices of pointers are lists of options. *)
Inductive Value `{Runtime} : Type :=
| VFloat32 (v : float32)
| VFloat64 (v : float64)
| VString (v : string)
| VBool (v : bool)
| VInt (v : Z)
| VInt8 (v : Z)
| VInt16 (v : Z)
| VInt32 (v : Z)
| VInt64 (v : Z)
| VUint (v : Z)
| VUint8 (v : Z)
| VUint16 (v : Z)
| VUint32 (v : Z)
| VUint64 (v : Z)
| VExtensionObject (v : option ExtensionObject.t)
| VExtensionObjects (v : list (option ExtensionObject.t))
| VOther (v : iface).

Module DataValue.
(** [Value] is a [*ua.Variant]; the variant is given by what its method
    [Value()] returns. *)
Record t `{Runtime} : Type := Build {
  Value : option Value;
  Status : StatusCode
}.
End DataValue.

Module NodeDef.
Record t `{Runtime} : Type := Build {
  NodeID : option NodeID;
  BrowseName : string
}.
End NodeDef.

(** The value of a [w]-bit two's complement integer with bits [v], and
    of a [w]-bit unsigned integer: what [int64(v)] and [uint64(v)] are. *)
Definition signed (w : Z) (v : Z) : Z := (v + 2 ^ (w - 1)) mod 2 ^ w - 2 ^ (w - 1).
Definition unsigned (w : Z) (v : Z) : Z := v mod 2 ^ w.

(** ** The logger and the effects of the codec *)

Inductive Level : Type := LevelError | LevelWarn.

(** An argument of a log call, before formatting. *)
Inductive Arg : Type :=
| ArgString (s : string)
| ArgStatus (c : StatusCode)
| ArgInt (n : Z)
| ArgBytes (b : slice)
| ArgError (err : error).

Record LogCall : Type := Build_LogCall {
  level : Level;
  format : string;
  args : list Arg
}.

(** The logger is the list of calls made on it so far. *)
Definition Logger : Type := list LogCall.

(** A call either returns or panics. *)
Inductive outcome (A : Type) : Type :=
| Returned (a : A)
| Panicked (msg : string).
Arguments Panicked {A} msg.

(** Computations that log and may panic. *)
Definition M (A : Type) : Type := Logger -> outcome A * Logger.

Definition ret {A : Type} (a : A) : M A := fun log => (Returned a, log).

Definition bind {A B : Type} (m : M A) (k : A -> M B) : M B :=
  fun log =>
    match m log with
    | (Returned a, log') => k a log'
    | (Panicked msg, log') => (Panicked msg, log')
    end.

Notation "x <- m ;; k" := (bind m (fun x => k))
  (at level 61, m at next level, right associativity).
Notation "m ;; k" := (bind m (fun _ => k))
  (at level 61, right associativity).

Definition panic {A : Type} (msg : string) : M A := fun log => (Panicked msg, log).

Definition nil_dereference : string :=
  "runtime error: invalid memory address or nil pointer dereference".

(** [*p], and [p.f] for a field [f]. *)
Definition deref {A : Type} (p : option A) : M A :=
  match p with
  | Some a => ret a
  | None => panic nil_dereference
  end.

Definition Errorf (format : string) (args : list Arg) : M unit :=
  fun log => (Returned tt, (log ++ [Build_LogCall LevelError format args])%list).

Definition Warnf (format : string) (args : list Arg) : M unit :=
  fun log => (Returned tt, (log ++ [Build_LogCall LevelWarn format args])%list).

(** The text of a [*ua.NodeID]: the method [String] checks its
    receiver and answers the empty text for the nil pointer. *)
Definition node_text `{Runtime} (n : option NodeID) : string :=
  match n with
  | Some n' => NodeID_String n'
  | None => ""
  end.

(** [n.String()] for [n] a [*ua.NodeID]. *)
Definition String_ `{Runtime} (n : option NodeID) : M string :=
  ret (node_text n).

(** ** core_read.go: getBytesFromValue *)

(** How the type switch is left: by one of its [return] statements, or
    by reaching its end with [b] and [tagType] set. *)
Inductive flow : Type :=
| Return_ (b : slice) (tagType : string)
| Break_ (b : slice) (tagType : string).

(** The loop over [v] of the case [[]*ua.ExtensionObject], one step. *)
Definition collect `{Runtime} (decoded : list iface) (eo : option ExtensionObject.t)
  : list iface :=
  match eo with
  | Some eo' =>
      match ExtensionObject.Value eo' with
      | Some value => (decoded ++ [value])%list
      | None => decoded
      end
  | None => decoded
  end.

(** The type switch on [variant.Value()]. *)
Definition type_switch `{Runtime} (v : Value) (b : slice) (nodeDef : NodeDef.t) : M flow :=
  match v with
  | VFloat32 v => ret (Break_ (append b (bytes_of_string (FormatFloat32 v))) "number")
  | VFloat64 v => ret (Break_ (append b (bytes_of_string (FormatFloat64 v))) "number")
  | VString v => ret (Break_ (append b (bytes_of_string v)) "string")
  | VBool v => ret (Break_ (append b (bytes_of_string (strconv.FormatBool v))) "bool")
  | VInt v => ret (Break_ (append b (bytes_of_string (strconv.Itoa (signed 64 v)))) "number")
  | VInt8 v => ret (Break_ (append b (bytes_of_string (strconv.FormatInt (signed 8 v)))) "number")
  | VInt16 v => ret (Break_ (append b (bytes_of_string (strconv.FormatInt (signed 16 v)))) "number")
  | VInt32 v => ret (Break_ (append b (bytes_of_string (strconv.FormatInt (signed 32 v)))) "number")
  | VInt64 v => ret (Break_ (append b (bytes_of_string (strconv.FormatInt (signed 64 v)))) "number")
  | VUint v => ret (Break_ (append b (bytes_of_string (strconv.FormatUint (unsigned 64 v)))) "number")
  | VUint8 v => ret (Break_ (append b (bytes_of_string (strconv.FormatUint (unsigned 8 v)))) "number")
  | VUint16 v => ret (Break_ (append b (bytes_of_string (strconv.FormatUint (unsigned 16 v)))) "number")
  | VUint32 v => ret (Break_ (append b (bytes_of_string (strconv.FormatUint (unsigned 32 v)))) "number")
  | VUint64 v => ret (Break_ (append b (bytes_of_string (strconv.FormatUint (unsigned 64 v)))) "number")
  | VExtensionObject v =>
      v' <- deref v ;;
      match ExtensionObject.Value v' with
      | None =>
          node <- String_ (NodeDef.NodeID nodeDef) ;;
          typeID <- deref (ExtensionObject.TypeID v') ;;
          type <- String_ (ExpandedNodeID.NodeID typeID) ;;
          Warnf "Skipping node %s: ExtensionObject type %s not decodable (custom UDT not registered)"
            [ArgString node; ArgString type] ;;
          ret (Return_ None "")
      | Some value =>
          match json_Marshal value with
          | inr err =>
              node <- String_ (NodeDef.NodeID nodeDef) ;;
              Errorf "Error marshaling ExtensionObject value for node %s: %v"
                [ArgString node; ArgError err] ;;
              ret (Return_ None "")
          | inl jsonBytes => ret (Break_ (append b jsonBytes) "string")
          end
      end
  | VExtensionObjects v =>
      let decoded := fold_left collect v [] in
      if (List.length decoded =? 0)%nat then
        node <- String_ (NodeDef.NodeID nodeDef) ;;
        Warnf "Skipping node %s: array of %d ExtensionObjects, none decodable (custom UDTs not registered)"
          [ArgString node; ArgInt (Z.of_nat (List.length v))] ;;
        ret (Return_ None "")
      else
        match json_Marshal_slice decoded with
        | inr err =>
            node <- String_ (NodeDef.NodeID nodeDef) ;;
            Errorf "Error marshaling ExtensionObject array for node %s: %v"
              [ArgString node; ArgError err] ;;
            ret (Return_ None "")
        | inl jsonBytes => ret (Break_ (append b jsonBytes) "string")
        end
  | VOther v =>
      match json_Marshal v with
      | inr err =>
          Errorf "Error marshaling to JSON: %v" [ArgError err] ;;
          ret (Return_ None "")
      | inl jsonBytes => ret (Break_ (append b jsonBytes) "string")
      end
  end.

(** [g.getBytesFromValue(dataValue, nodeDef)]; of the receiver only
    [g.Log] is used, it is the state of [M]. *)
Definition getBytesFromValue `{Runtime} (dataValue : option DataValue.t) (nodeDef : NodeDef.t)
  : M (slice * string) :=
  dataValue' <- deref dataValue ;;
  match DataValue.Value dataValue' with
  | None =>
      Errorf "Variant is nil" [] ;;
      ret (None, "")
  | Some variant =>
      if negb (errors_Is (StatusError (DataValue.Status dataValue')) ua.StatusOK) then
        node <- String_ (NodeDef.NodeID nodeDef) ;;
        Warnf "Skipping node %s: status %v" [ArgString node; ArgStatus (DataValue.Status dataValue')] ;;
        ret (None, "")
      else
        let b := make_bytes in
        f <- type_switch variant b nodeDef ;;
        match f with
        | Return_ b' tagType => ret (b', tagType)
        | Break_ b' tagType =>
            match b' with
            | None =>
                node <- String_ (NodeDef.NodeID nodeDef) ;;
                Errorf "Could not create benthos message as payload is empty for node %s: %v"
                  [ArgString node; ArgBytes b'] ;;
                ret (None, "")
            | Some _ => ret (b', tagType)
            end
        end
  end.

(** The result the specification calls Suppressed. *)
Definition Suppressed : slice * string := (None, "").

(** *** The calls the codec logs, and the inputs of its properties *)

(** The call that logs a value skipped for its status. *)
Definition skipped_for_status `{Runtime} (n : option NodeID) (status : StatusCode) : LogCall :=
  {| level := LevelWarn;
     format := "Skipping node %s: status %v";
     args := [ArgString (node_text n); ArgStatus status] |}.

Definition variant_is_nil : LogCall :=
  {| level := LevelError; format := "Variant is nil"; args := [] |}.

(** The call that logs a structured value skipped for want of a
    registered type. *)
Definition skipped_undecodable `{Runtime} (n type : option NodeID) : LogCall :=
  {| level := LevelWarn;
     format := "Skipping node %s: ExtensionObject type %s not decodable (custom UDT not registered)";
     args := [ArgString (node_text n); ArgString (node_text type)] |}.

Definition array_value `{Runtime} (v : list (option ExtensionObject.t)) : option DataValue.t :=
  Some {| DataValue.Value := Some (VExtensionObjects v); DataValue.Status := ua.StatusOK |}.

(** The calls that log a suppressed array. *)
Definition skipped_array `{Runtime} (n : option NodeID) (total : nat) : LogCall :=
  {| level := LevelWarn;
     format := "Skipping node %s: array of %d ExtensionObjects, none decodable (custom UDTs not registered)";
     args := [ArgString (node_text n); ArgInt (Z.of_nat total)] |}.

Definition array_marshal_error `{Runtime} (n : option NodeID) (err : error) : LogCall :=
  {| level := LevelError;
     format := "Error marshaling ExtensionObject array for node %s: %v";
     args := [ArgString (node_text n); ArgError err] |}.

(** An array element that is a nil pointer, replaced by a structured
    value without decoded representation. *)
Definition nil_as `{Runtime} (undecodable : ExtensionObject.t) (eo : option ExtensionObject.t)
  : option ExtensionObject.t :=
  match eo with
  | Some _ => eo
  | None => Some undecodable
  end.

(** The array without its nil elements. *)
Definition without_nil `{Runtime} (v : list (option ExtensionObject.t))
  : list (option ExtensionObject.t) :=
  filter (fun eo => match eo with Some _ => true | None => false end) v.

(** A computation is oblivious when its outcome and the calls it logs
    are the same from every logger. *)
Definition oblivious {A : Type} (m : M A) : Prop :=
  exists (r : outcome A) (entries : list LogCall),
    forall log, m log = (r, (log ++ entries)%list).

(** ** core_read.go: Read *)

Module service.
(** [service.ErrNotConnected], made by [errors.New]. *)
Definition ErrNotConnected : error := ErrorString "not connected".
End service.

Module OPCUAConnection.
(** The connection as far as [Read] uses it: the session handle
    [Client] and the logger. *)
Record t (Client : Type) : Type := Build {
  Client : Client;
  Log : Logger
}.
End OPCUAConnection.

(** The collaborators of [Read]: the session handle's [Read] and the
    connection's own method [Close], both declared outside
    core_read.go.  Either may change the state it works on; each returns
    what the Go method returns. *)
Class Session : Type := {
  Client : Type;
  Context : Type;
  ReadRequest : Type;
  ReadResponse : Type;
  Client_Read : Client -> Context -> option ReadRequest
                -> (option ReadResponse * option error) * Client;
  Close : OPCUAConnection.t Client -> Context
          -> option error * OPCUAConnection.t Client
}.

(** The calls [Read] makes on its collaborators, in order. *)
Inductive Call : Type := CallClientRead | CallClose.

(** The connection together with the record of collaborator calls. *)
Record World `{Session} : Type := Build_World {
  conn : OPCUAConnection.t Client;
  calls : list Call
}.

(** [g.Client.Read(ctx, req)]. *)
Definition call_Client_Read `{Session} (w : World) (ctx : Context) (req : option ReadRequest)
  : (option ReadResponse * option error) * World :=
  let (r, client) := Client_Read (OPCUAConnection.Client (conn w)) ctx req in
  (r, {| conn := {| OPCUAConnection.Client := client;
                    OPCUAConnection.Log := OPCUAConnection.Log (conn w) |};
         calls := (calls w ++ [CallClientRead])%list |}).

(** [g.Close(ctx)]. *)
Definition call_Close `{Session} (w : World) (ctx : Context) : option error * World :=
  let (err, g) := Close (conn w) ctx in
  (err, {| conn := g; calls := (calls w ++ [CallClose])%list |}).

(** [g.Log.Errorf(format, args...)] on the connection of a world. *)
Definition call_Errorf `{Session} (w : World) (format : string) (args : list Arg) : World :=
  {| conn := {| OPCUAConnection.Client := OPCUAConnection.Client (conn w);
                OPCUAConnection.Log := snd (Errorf format args (OPCUAConnection.Log (conn w))) |};
     calls := calls w |}.

(** One arm of the switch in [Read]: [_ = g.Close(ctx)] and
    [return nil, service.ErrNotConnected]. *)
Definition close_and_signal `{Session} (w : World) (ctx : Context)
  : (option ReadResponse * option error) * World :=
  let (_, w') := call_Close w ctx in
  ((None, Some service.ErrNotConnected), w').

Definition Read `{Session} (w : World) (ctx : Context) (req : option ReadRequest)
  : (option ReadResponse * option error) * World :=
  let '((resp, err), w) := call_Client_Read w ctx req in
  match err with
  | Some err =>
      let w := call_Errorf w "Read failed: %s" [ArgError err] in
      if errors_Is err ua.StatusBadSessionIDInvalid then close_and_signal w ctx
      else if errors_Is err ua.StatusBadCommunicationError then close_and_signal w ctx
      else if errors_Is err ua.StatusBadConnectionClosed then close_and_signal w ctx
      else if errors_Is err ua.StatusBadTimeout then close_and_signal w ctx
      else if errors_Is err ua.StatusBadConnectionRejected then close_and_signal w ctx
      else if errors_Is err ua.StatusBadServerNotConnected then close_and_signal w ctx
      else ((None, Some err), w)
  | None => ((resp, None), w)
  end.

(** *** The fault classification of the specification

    The fixed fault set, and [SessionFatal err]: the error is, or
    wraps, one of its status codes. *)
Definition fatal_statuses : list StatusCode :=
  [ ua.StatusBadSessionIDInvalid; ua.StatusBadCommunicationError;
    ua.StatusBadConnectionClosed; ua.StatusBadTimeout;
    ua.StatusBadConnectionRejected; ua.StatusBadServerNotConnected ].

Definition SessionFatal (err : error) : Prop :=
  exists c, In c fatal_statuses /\ Unwraps err (StatusError c).

(** How often [Close] was called. *)
Definition close_count (l : list Call) : nat :=
  List.length (filter (fun c => match c with CallClose => true | _ => false end) l).

(** The call [g.Log.Errorf("Read failed: %s", err)]. *)
Definition read_failed `{Session} (err : error) : LogCall :=
  {| level := LevelError; format := "Read failed: %s"; args := [ArgError err] |}.

(** The connection after a failed read has been logged. *)
Definition after_failed_read `{Session} (w : World) (client' : Client) (err : error)
  : OPCUAConnection.t Client :=
  {| OPCUAConnection.Client := client';
     OPCUAConnection.Log := (OPCUAConnection.Log (conn w) ++ [read_failed err])%list |}.

(** ** The specification's view of the data *)

(** The decoded representation of an element of an array of structured
    values, if it has one; a nil element has none. *)
Definition decoded_representation `{Runtime} (eo : option ExtensionObject.t) : option iface :=
  match eo with
  | Some eo' => ExtensionObject.Value eo'
  | None => None
  end.

(** The decodable elements of an array, in their original order. *)
Fixpoint decodable `{Runtime} (v : list (option ExtensionObject.t)) : list iface :=
  match v with
  | [] => []
  | eo :: v' =>
      match decoded_representation eo with
      | Some value => value :: decodable v'
      | None => decodable v'
      end
  end.

(** The integer types of the type universe. *)
Inductive IntType : Type :=
| Int8 | Int16 | Int32 | Int64 | Uint8 | Uint16 | Uint32 | Uint64.

Definition MinOf (t : IntType) : Z :=
  match t with
  | Int8 => - 2 ^ 7 | Int16 => - 2 ^ 15 | Int32 => - 2 ^ 31 | Int64 => - 2 ^ 63
  | Uint8 | Uint16 | Uint32 | Uint64 => 0
  end.

Definition MaxOf (t : IntType) : Z :=
  match t with
  | Int8 => 2 ^ 7 - 1 | Int16 => 2 ^ 15 - 1 | Int32 => 2 ^ 31 - 1 | Int64 => 2 ^ 63 - 1
  | Uint8 => 2 ^ 8 - 1 | Uint16 => 2 ^ 16 - 1 | Uint32 => 2 ^ 32 - 1 | Uint64 => 2 ^ 64 - 1
  end.

(** The variant content that is the integer [v] of type [t]. *)
Definition integer `{Runtime} (t : IntType) (v : Z) : Value :=
  match t with
  | Int8 => VInt8 v | Int16 => VInt16 v | Int32 => VInt32 v | Int64 => VInt64 v
  | Uint8 => VUint8 v | Uint16 => VUint16 v | Uint32 => VUint32 v | Uint64 => VUint64 v
  end.

(** [s] is the base-10 text of [v]: it reads back as [v] and is in
    minimal form (no leading zeros, a minus sign exactly for negative
    values). *)
Definition base10_text (s : string) (v : Z) : Prop :=
  strconv.ParseInt s = Some v /\
  strconv.minimal_signed s = true /\
  (String.prefix "-" s = true <-> v < 0).

(** ** A concrete runtime, after the fixtures of core_read_test.go

    The values the tests build: numeric node ids, a few floating point
    constants with the text Go prints for them, and decoded
    [ua.DataChangeFilter] structures as the contents of interfaces. *)

Module Fixture.

Inductive float : Type := F0_5 | F1_5 | F3_14 | NaN.

Definition FormatFloat (f : float) : string :=
  match f with
  | F0_5 => "0.5"
  | F1_5 => "1.5"
  | F3_14 => "3.14"
  | NaN => "NaN"
  end.

(** [ua.NewNumericNodeID(ns, id)]. *)
Inductive NumericNodeID : Type := NewNumericNodeID (ns id : Z).

Definition NumericNodeID_String (n : NumericNodeID) : string :=
  match n with
  | NewNumericNodeID ns id =>
      if ns =? 0 then "i=" ++ strconv.FormatUint id
      else "ns=" ++ strconv.FormatUint ns ++ ";i=" ++ strconv.FormatUint id
  end.

Record DataChangeFilter : Type := Build_DataChangeFilter {
  Trigger : Z;
  DeadbandType : Z;
  DeadbandValue : float
}.

Definition quote : string := String (ascii_of_nat 34) EmptyString.

Definition member (name value : string) : string :=
  quote ++ name ++ quote ++ ":" ++ value.

(** [json.Marshal] of a [*ua.DataChangeFilter]: an object of its three
    fields; a NaN is an [UnsupportedValueError]. *)
Definition Marshal (d : DataChangeFilter) : list byte + error :=
  match DeadbandValue d with
  | NaN => inr (ErrorString "json: unsupported value: NaN")
  | f =>
      inl (bytes_of_string
             ("{" ++ member "Trigger" (strconv.FormatUint (Trigger d)) ++
              "," ++ member "DeadbandType" (strconv.FormatUint (DeadbandType d)) ++
              "," ++ member "DeadbandValue" (FormatFloat f) ++ "}"))
  end.

#[export] Instance runtime : Runtime := {|
  float32 := float;
  float64 := float;
  FormatFloat32 := FormatFloat;
  FormatFloat64 := FormatFloat;
  iface := DataChangeFilter;
  json_Marshal := Marshal;
  NodeID := NumericNodeID;
  NodeID_String := NumericNodeID_String
|}.

(** The [nodeDef] of the tests. *)
Definition nodeDef : NodeDef.t :=
  {| NodeDef.NodeID := Some (NewNumericNodeID 0 1001); NodeDef.BrowseName := "TestNode" |}.

Definition typeID (ns id : Z) : option ExpandedNodeID.t :=
  Some {| ExpandedNodeID.NodeID := Some (NewNumericNodeID ns id);
          ExpandedNodeID.NamespaceURI := "";
          ExpandedNodeID.ServerIndex := 0 |}.

Definition ExtensionObjectBinary : Z := 1.

(** An undecodable structured value, [Value: nil]. *)
Definition undecodable (ns id : Z) : ExtensionObject.t :=
  {| ExtensionObject.EncodingMask := ExtensionObjectBinary;
     ExtensionObject.TypeID := typeID ns id;
     ExtensionObject.Value := None |}.

(** A decoded data change filter with the given deadband. *)
Definition filter_object (deadband : float) : ExtensionObject.t :=
  {| ExtensionObject.EncodingMask := ExtensionObjectBinary;
     ExtensionObject.TypeID := typeID 0 724;
     ExtensionObject.Value :=
       Some {| Trigger := 1; DeadbandType := 1; DeadbandValue := deadband |} |}.

(** [&ua.DataValue{Status: status, Value: ua.MustVariant(v)}]. *)
Definition dataValue (status : StatusCode) (v : Value) : option DataValue.t :=
  Some {| DataValue.Value := Some v; DataValue.Status := status |}.

(** The text of a decoded data change filter with deadband 1.5. *)
Definition filter_1_5_json : string :=
  "{" ++ member "Trigger" "1" ++ "," ++ member "DeadbandType" "1" ++ "," ++
  member "DeadbandValue" "1.5" ++ "}".

(** A session handle that answers from a script: each read takes the
    next scripted reply; [Close] drops the script and itself fails. *)
Definition Response : Type := list DataValue.t.

#[export] Instance session : Session := {|
  Client := list (option Response * option error);
  Context := unit;
  ReadRequest := list NumericNodeID;
  ReadResponse := Response;
  Client_Read := fun client _ _ =>
    match client with
    | [] => ((None, Some (ErrorString "EOF")), [])
    | reply :: client' => (reply, client')
    end;
  Close := fun g _ =>
    (Some (ErrorString "close failed"),
     {| OPCUAConnection.Client := []; OPCUAConnection.Log := OPCUAConnection.Log g |})
|}.

Definition world (script : list (option Response * option error)) : World :=
  {| conn := {| OPCUAConnection.Client := script; OPCUAConnection.Log := [] |};
     calls := [] |}.

End Fixture.

(** ** Further notions for the properties of the codec and of Read *)

(** The tag types of a result that is not suppressed. *)
Definition tagTypes : list string := ["number"; "string"; "bool"].

(** The format of the call logged by the check after the type switch. *)
Definition payload_is_empty_format : string :=
  "Could not create benthos message as payload is empty for node %s: %v".

(** [&ua.DataValue{Status: ua.StatusOK, Value: ua.MustVariant(v)}]. *)
Definition ok_value `{Runtime} (v : Value) : option DataValue.t :=
  Some {| DataValue.Value := Some v; DataValue.Status := ua.StatusOK |}.

(** The pointers the codec follows in a variant content are there: a
    structured value is not the nil pointer and, when it has no decoded
    representation, carries its type identifier down to the node id. *)
Definition structure_complete `{Runtime} (v : Value) : bool :=
  match v with
  | VExtensionObject None => false
  | VExtensionObject (Some eo) =>
      match ExtensionObject.Value eo, ExtensionObject.TypeID eo with
      | Some _, _ => true
      | None, Some typeID =>
          match ExpandedNodeID.NodeID typeID with Some _ => true | None => false end
      | None, None => false
      end
  | _ => true
  end.

(** A structured value that holds the decoded representation [value]
    and nothing else. *)
Definition structured `{Runtime} (value : iface) : Value :=
  VExtensionObject
    (Some {| ExtensionObject.EncodingMask := 0;
             ExtensionObject.TypeID := None;
             ExtensionObject.Value := Some value |}).

(** The payloads [l] with [sep] between them, as [bytes.Join] does. *)
Fixpoint join (sep : list byte) (l : list (list byte)) : list byte :=
  match l with
  | [] => []
  | b :: l' =>
      match l' with
      | [] => b
      | _ => (b ++ sep ++ join sep l')%list
      end
  end.

(** The variant content that is the integer [v] of the platform type
    [int] or [uint]. *)
Definition platform_integer `{Runtime} (is_signed : bool) (v : Z) : Value :=
  if is_signed then VInt v else VUint v.

Definition platform_range (is_signed : bool) (v : Z) : Prop :=
  if is_signed then - 2 ^ 63 <= v < 2 ^ 63 else 0 <= v < 2 ^ 64.

(** What the session handle's read returned, for the connection of a
    world. *)
Definition client_reply `{Session} (w : World) (ctx : Context) (req : option ReadRequest)
  : option ReadResponse * option error :=
  fst (Client_Read (OPCUAConnection.Client (conn w)) ctx req).

(** * Properties *)

(** ** strconv: the text written is the base-10 text *)

Module strconv_facts.
Import strconv.

(** A property checked on [0 .. n-1] by evaluation holds there. *)
Lemma forall_below (P : Z -> bool) (n : nat) :
  forallb P (map Z.of_nat (seq 0 n)) = true ->
  forall k, 0 <= k < Z.of_nat n -> P k = true.
Proof.
  intros Hall k Hk.
  rewrite forallb_forall in Hall. apply Hall.
  rewrite <- (Z2Nat.id k) by lia.
  apply in_map, in_seq. lia.
Qed.

Lemma digit_value_char d : 0 <= d < 10 -> digit_value (digit_char d) = Some d.
Proof.
  intros Hd.
  apply (forall_below
           (fun d => match digit_value (digit_char d) with
                     | Some x => x =? d
                     | None => false
                     end) 10) in Hd; [ | reflexivity ].
  destruct (digit_value (digit_char d)); [ | discriminate ].
  apply Z.eqb_eq in Hd. now subst.
Qed.

(** [smallsString] holds at [2k] and [2k+1] the two digits of [k]. *)
Lemma smallsString_pair k :
  0 <= k < 100 ->
  index smallsString (k * 2) = digit_char (k / 10) /\
  index smallsString (k * 2 + 1) = digit_char (k mod 10).
Proof.
  intros Hk.
  apply (forall_below
           (fun k => Ascii.eqb (index smallsString (k * 2)) (digit_char (k / 10)) &&
                     Ascii.eqb (index smallsString (k * 2 + 1)) (digit_char (k mod 10)))
           100) in Hk; [ | vm_compute; reflexivity ].
  apply andb_true_iff in Hk. destruct Hk as [H1 H2].
  split; now apply Ascii.eqb_eq.
Qed.

Lemma length_append (s1 s2 : string) :
  String.length (s1 ++ s2) = (String.length s1 + String.length s2)%nat.
Proof. induction s1 as [ | c s1 IH ]; simpl; [ reflexivity | now rewrite IH ]. Qed.

Lemma append_empty_r (s : string) : s ++ "" = s.
Proof. induction s as [ | c s IH ]; simpl; [ reflexivity | now rewrite IH ]. Qed.

Lemma append_assoc (s1 s2 s3 : string) : (s1 ++ s2) ++ s3 = s1 ++ (s2 ++ s3).
Proof. induction s1 as [ | c s1 IH ]; simpl; [ reflexivity | now rewrite IH ]. Qed.

Lemma parse_digits_app s1 s2 acc :
  parse_digits acc (s1 ++ s2) =
  match parse_digits acc s1 with
  | Some x => parse_digits x s2
  | None => None
  end.
Proof.
  revert acc. induction s1 as [ | c s1 IH ]; intros acc; simpl.
  - reflexivity.
  - destruct (digit_value c); [ apply IH | reflexivity ].
Qed.

Lemma writes_ParseUint d us : writes d us -> ParseUint d = Some us.
Proof.
  intros [Hv (c & r & x & -> & _)].
  unfold ParseUint. rewrite Hv. f_equal; lia.
Qed.

Lemma writes_minimal d us : 0 <= us -> writes d us -> minimal_unsigned d = true.
Proof.
  intros Hus [_ (c & r & x & -> & Hc & Hpos & Hzero)].
  simpl. rewrite Hc. destruct r as [ | c' r ]; [ reflexivity | ].
  apply Z.ltb_lt, Hpos.
  destruct (Z.eq_dec us 0) as [E | E]; [ apply Hzero in E; discriminate | lia ].
Qed.

Lemma writes_not_minus d us : writes d us -> exists c r, d = String c r /\ Ascii.eqb c "-" = false.
Proof.
  intros [_ (c & r & x & -> & Hc & _)].
  exists c, r. split; [ reflexivity | ].
  destruct (Ascii.eqb_spec c "-") as [-> | ]; [ discriminate | reflexivity ].
Qed.

Lemma writes_one us : 0 <= us < 10 -> writes (String (digit_char us) "") us.
Proof.
  intros Hus. split.
  - intros acc. cbn [parse_digits String.length].
    rewrite digit_value_char by lia. f_equal.
    change (Z.of_nat 1) with 1. lia.
  - exists (digit_char us), "", us. rewrite digit_value_char by lia. auto.
Qed.

Lemma writes_two us :
  10 <= us < 100 ->
  writes (String (digit_char (us / 10)) (String (digit_char (us mod 10)) "")) us.
Proof.
  intros Hus.
  assert (0 < us / 10 < 10) by (split; [ apply Z.div_str_pos | apply Z.div_lt_upper_bound ]; lia).
  assert (0 <= us mod 10 < 10) by (apply Z.mod_pos_bound; lia).
  split.
  - intros acc. cbn [parse_digits String.length].
    rewrite !digit_value_char by lia. f_equal.
    change (10 ^ Z.of_nat 2) with 100.
    pose proof (Z.div_mod us 10). lia.
  - exists (digit_char (us / 10)), (String (digit_char (us mod 10)) ""), (us / 10).
    rewrite digit_value_char by lia. repeat split; auto; lia.
Qed.

(** Two more digits after the digits of [us / 100]. *)
Lemma writes_snoc d us :
  100 <= us -> writes d (us / 100) ->
  writes (d ++ String (digit_char (us mod 100 / 10))
                 (String (digit_char (us mod 100 mod 10)) "")) us.
Proof.
  intros Hus [Hv (c & r & x & -> & Hc & Hpos & Hzero)].
  assert (0 <= us mod 100 < 100) by (apply Z.mod_pos_bound; lia).
  assert (0 <= us mod 100 / 10 < 10)
    by (split; [ apply Z.div_pos | apply Z.div_lt_upper_bound ]; lia).
  assert (0 <= us mod 100 mod 10 < 10) by (apply Z.mod_pos_bound; lia).
  assert (0 < us / 100) by (apply Z.div_str_pos; lia).
  split.
  - intros acc. rewrite parse_digits_app, Hv. cbn [parse_digits].
    rewrite !digit_value_char by lia. f_equal.
    rewrite length_append.
    rewrite Nat2Z.inj_add, Z.pow_add_r by lia.
    cbn [String.length]. change (10 ^ Z.of_nat 2) with 100.
    generalize (10 ^ Z.of_nat (S (String.length r))). intros p.
    pose proof (Z.div_mod us 100). pose proof (Z.div_mod (us mod 100) 10). lia.
  - exists c, (r ++ String (digit_char (us mod 100 / 10))
                     (String (digit_char (us mod 100 mod 10)) "")), x.
    repeat split; auto. lia.
Qed.

(** The code after the loop, for a value below 100. *)
Lemma formatBits_last us a :
  0 <= us < 100 ->
  exists d,
    (let is' := us * 2 in
     let a' := String (index smallsString (is' + 1)) a in
     if 10 <=? us then String (index smallsString is') a' else a') = d ++ a /\
    writes d us.
Proof.
  intros Hus. cbv zeta.
  destruct (smallsString_pair (k := us)) as [E1 E2]; [ lia | ].
  rewrite E1, E2.
  destruct (Z.leb_spec 10 us) as [Hten | Hone].
  - exists (String (digit_char (us / 10)) (String (digit_char (us mod 10)) "")).
    split; [ reflexivity | apply writes_two; lia ].
  - exists (String (digit_char us) "").
    rewrite Z.mod_small by lia.
    split; [ reflexivity | apply writes_one; lia ].
Qed.

Lemma formatBits_loop_step fuel us a :
  formatBits_loop (S fuel) us a =
  if 100 <=? us then
    formatBits_loop fuel (us / 100)
      (String (index smallsString (us mod 100 * 2))
         (String (index smallsString (us mod 100 * 2 + 1)) a))
  else
    let is' := us * 2 in
    let a' := String (index smallsString (is' + 1)) a in
    if 10 <=? us then String (index smallsString is') a' else a'.
Proof. reflexivity. Qed.

Lemma formatBits_loop_writes fuel :
  forall us a, 0 <= us < 100 ^ Z.of_nat (S fuel) ->
  exists d, formatBits_loop (S fuel) us a = d ++ a /\ writes d us.
Proof.
  induction fuel as [ | fuel IH ]; intros us a Hus;
    rewrite formatBits_loop_step; destruct (Z.leb_spec 100 us) as [Hbig | Hsmall].
  - change (100 ^ Z.of_nat 1) with 100 in Hus. lia.
  - now apply formatBits_last.
  - destruct (smallsString_pair (k := us mod 100)) as [E1 E2];
      [ apply Z.mod_pos_bound; lia | ].
    rewrite E1, E2.
    destruct (IH (us / 100)
                (String (digit_char (us mod 100 / 10))
                   (String (digit_char (us mod 100 mod 10)) a))) as (d & Hd & Hw).
    { split; [ apply Z.div_pos; lia | ].
      apply Z.div_lt_upper_bound; [ lia | ].
      rewrite (Nat2Z.inj_succ (S fuel)), Z.pow_succ_r in Hus by lia. lia. }
    exists (d ++ String (digit_char (us mod 100 / 10))
                   (String (digit_char (us mod 100 mod 10)) "")).
    split; [ | now apply writes_snoc ].
    rewrite Hd. now rewrite append_assoc.
  - now apply formatBits_last.
Qed.

Lemma small_writes i : 0 <= i < nSmalls -> writes (small i) i.
Proof.
  intros Hi.
  assert (E : small i = if i <? 10 then String (digit_char i) ""
                        else String (digit_char (i / 10)) (String (digit_char (i mod 10)) "")).
  { apply (forall_below
             (fun i => String.eqb (small i)
                         (if i <? 10 then String (digit_char i) ""
                          else String (digit_char (i / 10))
                                 (String (digit_char (i mod 10)) "")))
             100) in Hi; [ | vm_compute; reflexivity ].
    now apply String.eqb_eq. }
  rewrite E. destruct (Z.ltb_spec i 10).
  - apply writes_one. lia.
  - apply writes_two. unfold nSmalls in Hi. lia.
Qed.

Lemma formatBits_writes u :
  0 <= u < 2 ^ 64 -> writes (formatBits u false) u.
Proof.
  intros Hu. unfold formatBits, buffer_iterations.
  destruct (formatBits_loop_writes 31 (us := u) "") as (d & Hd & Hw).
  { split; [ lia | ]. eapply Z.lt_le_trans; [ apply Hu | ]. vm_compute. discriminate. }
  now rewrite Hd, append_empty_r.
Qed.

Lemma FormatUint_writes i : 0 <= i < 2 ^ 64 -> writes (FormatUint i) i.
Proof.
  intros Hi. unfold FormatUint. destruct (Z.ltb_spec i nSmalls).
  - apply small_writes. lia.
  - now apply formatBits_writes.
Qed.

Lemma prefix_minus c r : String.prefix "-" (String c r) = Ascii.eqb c "-".
Proof.
  cbn [String.prefix].
  destruct (ascii_dec "-" c) as [<- | Hne].
  - now destruct r.
  - destruct (Ascii.eqb_spec c "-"); congruence.
Qed.

Lemma writes_base10_text d us : 0 <= us -> writes d us -> base10_text d us.
Proof.
  intros Hus Hw.
  destruct (writes_not_minus Hw) as (c & r & -> & Hc).
  unfold base10_text, ParseInt, minimal_signed. rewrite prefix_minus, Hc.
  repeat split.
  - now apply writes_ParseUint.
  - now apply writes_minimal with us.
  - discriminate.
  - lia.
Qed.

Lemma FormatUint_base10_text i : 0 <= i < 2 ^ 64 -> base10_text (FormatUint i) i.
Proof. intros Hi. apply writes_base10_text; [ lia | now apply FormatUint_writes ]. Qed.

(** The bounds of the 64-bit types as numerals, for [lia]. *)
Ltac bounds64 :=
  change (2 ^ 63) with 9223372036854775808 in *;
  change (2 ^ 64) with 18446744073709551616 in *.

Lemma wrap64_magnitude i : - 2 ^ 63 <= i < 0 -> wrap64 (- wrap64 i) = - i.
Proof.
  intros Hi. unfold wrap64.
  change (2 ^ 63) with 9223372036854775808 in Hi.
  change (2 ^ 64) with 18446744073709551616.
  Z.div_mod_to_equations. lia.
Qed.

Lemma FormatInt_base10_text i : - 2 ^ 63 <= i < 2 ^ 63 -> base10_text (FormatInt i) i.
Proof.
  intros Hi. unfold FormatInt.
  assert (Hi' : - 9223372036854775808 <= i < 9223372036854775808) by exact Hi.
  destruct (Z.leb_spec 0 i) as [Hpos | Hneg]; cbn [andb].
  - assert (Hw : writes (if i <? nSmalls then small i else formatBits (wrap64 i) (i <? 0)) i).
    { destruct (Z.ltb_spec i nSmalls).
      - apply small_writes. lia.
      - replace (i <? 0) with false by (symmetry; apply Z.ltb_ge; lia).
        unfold wrap64. rewrite Z.mod_small by (bounds64; lia).
        apply formatBits_writes. bounds64. lia. }
    apply writes_base10_text; [ lia | exact Hw ].
  - replace (i <? 0) with true by (symmetry; apply Z.ltb_lt; lia).
    unfold formatBits. rewrite wrap64_magnitude by lia.
    assert (Hw : writes (formatBits (- i) false) (- i)).
    { apply formatBits_writes. bounds64. lia. }
    unfold formatBits in Hw.
    set (a := formatBits_loop buffer_iterations (- i) "") in *.
    unfold base10_text, ParseInt, minimal_signed. rewrite prefix_minus.
    change (Ascii.eqb "-" "-") with true. cbv iota.
    rewrite (writes_ParseUint Hw), (writes_minimal (us := - i)) by (lia || exact Hw).
    repeat split.
    + cbn [option_map]. f_equal. lia.
    + destruct (String.eqb_spec a "0") as [E | ]; [ | reflexivity ].
      pose proof (writes_ParseUint Hw) as Hp. rewrite E in Hp.
      change (ParseUint "0") with (Some 0) in Hp. injection Hp as Hp. lia.
    + lia.
Qed.

Lemma Itoa_base10_text i : - 2 ^ 63 <= i < 2 ^ 63 -> base10_text (Itoa i) i.
Proof. apply FormatInt_base10_text. Qed.

(** *** A value has one base-10 text *)

Lemma digit_value_range c d : digit_value c = Some d -> 0 <= d < 10.
Proof.
  unfold digit_value.
  destruct (Z.leb_spec 48 (Z.of_N (N_of_ascii c))); cbn [andb]; [ | discriminate ].
  destruct (Z.leb_spec (Z.of_N (N_of_ascii c)) 57); [ | discriminate ].
  intros [= <-]. lia.
Qed.

Lemma digit_value_inj c1 c2 d :
  digit_value c1 = Some d -> digit_value c2 = Some d -> c1 = c2.
Proof.
  unfold digit_value. intros H1 H2.
  destruct (_ && _) in H1; [ | discriminate ].
  destruct (_ && _) in H2; [ | discriminate ].
  injection H1 as H1. injection H2 as H2.
  rewrite <- (ascii_N_embedding c1), <- (ascii_N_embedding c2).
  f_equal. lia.
Qed.

Lemma parse_digits_bounds s :
  forall acc v, 0 <= acc -> parse_digits acc s = Some v ->
  acc * 10 ^ Z.of_nat (String.length s) <= v < (acc + 1) * 10 ^ Z.of_nat (String.length s).
Proof.
  induction s as [ | c s IH ]; intros acc v Hacc; cbn [parse_digits String.length].
  - intros [= <-]. change (10 ^ Z.of_nat 0) with 1. lia.
  - destruct (digit_value c) as [ d | ] eqn:Hc; [ | discriminate ].
    apply digit_value_range in Hc. intros Hv. apply IH in Hv; [ | lia ].
    rewrite Nat2Z.inj_succ, Z.pow_succ_r by lia.
    assert (0 < 10 ^ Z.of_nat (String.length s)) by (apply Z.pow_pos_nonneg; lia).
    nia.
Qed.

Lemma parse_digits_inj s1 :
  forall s2 acc1 acc2 v,
    String.length s1 = String.length s2 -> 0 <= acc1 -> 0 <= acc2 ->
    parse_digits acc1 s1 = Some v -> parse_digits acc2 s2 = Some v ->
    acc1 = acc2 /\ s1 = s2.
Proof.
  induction s1 as [ | c1 s1 IH ]; intros [ | c2 s2 ] acc1 acc2 v Hlen H1 H2;
    try discriminate; cbn [parse_digits].
  - intros [= <-] [= <-]. now split.
  - destruct (digit_value c1) as [ d1 | ] eqn:Hc1; [ | discriminate ].
    destruct (digit_value c2) as [ d2 | ] eqn:Hc2; [ | discriminate ].
    pose proof (digit_value_range _ Hc1). pose proof (digit_value_range _ Hc2).
    intros Hv1 Hv2.
    assert (Hlen' : String.length s1 = String.length s2) by now injection Hlen.
    destruct (IH s2 (10 * acc1 + d1) (10 * acc2 + d2) v Hlen'
                ltac:(lia) ltac:(lia) Hv1 Hv2) as [Hacc ->].
    assert (d1 = d2) by lia. subst d2.
    split; [ lia | ]. f_equal. now apply digit_value_inj with d1.
Qed.

(** The length of a minimal numeral is fixed by its value. *)
Lemma minimal_unsigned_length s v :
  minimal_unsigned s = true -> ParseUint s = Some v ->
  (v = 0 /\ s = "0") \/
  (0 < v /\ 10 ^ (Z.of_nat (String.length s) - 1) <= v < 10 ^ Z.of_nat (String.length s)).
Proof.
  destruct s as [ | c r ]; [ discriminate | ].
  unfold ParseUint. cbn [minimal_unsigned parse_digits].
  destruct (digit_value c) as [ d | ] eqn:Hc;
    [ | destruct r; discriminate ].
  pose proof (digit_value_range _ Hc) as Hd.
  intros Hmin Hv.
  pose proof (parse_digits_bounds r (acc := 10 * 0 + d) ltac:(lia) Hv) as Hb.
  cbn [String.length]. rewrite Nat2Z.inj_succ.
  replace (Z.succ (Z.of_nat (String.length r)) - 1) with (Z.of_nat (String.length r)) by lia.
  rewrite Z.pow_succ_r by lia.
  assert (0 < 10 ^ Z.of_nat (String.length r)) by (apply Z.pow_pos_nonneg; lia).
  destruct r as [ | c' r ].
  - cbn [parse_digits] in Hv. injection Hv as <-.
    change (10 ^ Z.of_nat (String.length "")) with 1.
    destruct (Z.eq_dec d 0) as [-> | ].
    + left. split; [ reflexivity | ].
      f_equal. apply digit_value_inj with 0; [ exact Hc | reflexivity ].
    + right. lia.
  - apply Z.ltb_lt in Hmin. right. nia.
Qed.

Lemma minimal_unsigned_unique s1 s2 v :
  minimal_unsigned s1 = true -> ParseUint s1 = Some v ->
  minimal_unsigned s2 = true -> ParseUint s2 = Some v ->
  s1 = s2.
Proof.
  intros Hm1 Hv1 Hm2 Hv2.
  destruct (minimal_unsigned_length _ Hm1 Hv1) as [ [E1 ->] | [Hpos Hb1] ];
    destruct (minimal_unsigned_length _ Hm2 Hv2) as [ [E2 ->] | [Hpos' Hb2] ];
    try reflexivity; try lia.
  assert (Hlen : String.length s1 = String.length s2).
  { destruct (Nat.lt_total (String.length s1) (String.length s2)) as [ Hlt | [ E | Hlt ] ];
      [ exfalso | exact E | exfalso ].
    - assert (10 ^ Z.of_nat (String.length s1) <= 10 ^ (Z.of_nat (String.length s2) - 1))
        by (apply Z.pow_le_mono_r; lia).
      lia.
    - assert (10 ^ Z.of_nat (String.length s2) <= 10 ^ (Z.of_nat (String.length s1) - 1))
        by (apply Z.pow_le_mono_r; lia).
      lia. }
  destruct s1 as [ | c1 r1 ]; [ discriminate | ].
  destruct s2 as [ | c2 r2 ]; [ discriminate | ].
  unfold ParseUint in Hv1, Hv2.
  now destruct (parse_digits_inj _ _ Hlen (Z.le_refl 0) (Z.le_refl 0) Hv1 Hv2).
Qed.

Lemma base10_text_unique s1 s2 v : base10_text s1 v -> base10_text s2 v -> s1 = s2.
Proof.
  intros (Hv1 & Hm1 & Hs1) (Hv2 & Hm2 & Hs2).
  destruct s1 as [ | c1 r1 ]; [ discriminate | ].
  destruct s2 as [ | c2 r2 ]; [ discriminate | ].
  rewrite prefix_minus in Hs1, Hs2.
  unfold ParseInt in Hv1, Hv2. unfold minimal_signed in Hm1, Hm2.
  destruct (Z.ltb_spec v 0) as [ Hneg | Hpos ].
  - apply Hs1 in Hneg as E1. apply Hs2 in Hneg as E2.
    rewrite E1 in Hv1, Hm1. rewrite E2 in Hv2, Hm2.
    apply Ascii.eqb_eq in E1, E2. subst c1 c2. f_equal.
    apply andb_true_iff in Hm1, Hm2.
    destruct (ParseUint r1) as [ u1 | ] eqn:Hu1; [ | discriminate ].
    destruct (ParseUint r2) as [ u2 | ] eqn:Hu2; [ | discriminate ].
    cbn [option_map] in Hv1, Hv2.
    assert (u1 = u2) by (injection Hv1; injection Hv2; lia). subst u2.
    now apply minimal_unsigned_unique with u1.
  - destruct (Ascii.eqb c1 "-"); [ exfalso; assert (v < 0) by (now apply Hs1); lia | ].
    destruct (Ascii.eqb c2 "-"); [ exfalso; assert (v < 0) by (now apply Hs2); lia | ].
    now apply minimal_unsigned_unique with v.
Qed.

End strconv_facts.

(** ** The value codec *)

Section Codec.
Context `{R : Runtime}.

(** Running the codec: unfold the monad and the control flow. *)
Ltac run :=
  cbv [getBytesFromValue type_switch bind ret panic deref String_ Errorf Warnf
       make_bytes append Suppressed];
  cbn [DataValue.Value DataValue.Status NodeDef.NodeID ExtensionObject.Value
       ExtensionObject.TypeID ExpandedNodeID.NodeID errors_Is negb fst snd app].

Lemma status_is_OK (status : StatusCode) :
  errors_Is (StatusError status) ua.StatusOK = true <-> status = ua.StatusOK.
Proof. cbn [errors_Is]. apply Z.eqb_eq. Qed.

(** The loop of the array case collects the decodable elements. *)
Lemma collect_decodable (v : list (option ExtensionObject.t)) :
  forall decoded, fold_left collect v decoded = (decoded ++ decodable v)%list.
Proof.
  induction v as [ | eo v IH ]; intros decoded; cbn [fold_left decodable].
  - now rewrite app_nil_r.
  - rewrite IH. unfold collect, decoded_representation.
    destruct eo as [ eo' | ]; [ destruct (ExtensionObject.Value eo') | ];
      try reflexivity.
    now rewrite <- app_assoc.
Qed.

(** C3. A value whose status is not OK is suppressed whatever its raw
    value is and whatever the tag context is: the codec returns the nil
    payload and the empty tag type, and logs one call, the warning
    naming the tag and the status (or, when the variant is absent, the
    error saying so). *)
Theorem bad_status_is_suppressed
  (dataValue : DataValue.t) (nodeDef : NodeDef.t) (log : Logger) :
  DataValue.Status dataValue <> ua.StatusOK ->
  getBytesFromValue (Some dataValue) nodeDef log =
  (Returned Suppressed,
   (log ++ [match DataValue.Value dataValue with
            | Some _ => skipped_for_status (NodeDef.NodeID nodeDef) (DataValue.Status dataValue)
            | None => variant_is_nil
            end])%list).
Proof.
  intros Hbad. destruct dataValue as [value status]. run.
  destruct value as [ raw | ]; [ | reflexivity ].
  cbn [DataValue.Status] in Hbad.
  destruct (Z.eqb_spec status ua.StatusOK) as [E | _]; [ contradiction | ].
  reflexivity.
Qed.

(** C1. The codec at the empty text value with status OK: the payload
    returned is the empty slice, which is not nil, and the tag type is
    "string"; the final check [b == nil] does not fire. *)
Theorem empty_string_is_not_suppressed (nodeDef : NodeDef.t) (log : Logger) :
  getBytesFromValue
    (Some {| DataValue.Value := Some (VString ""); DataValue.Status := ua.StatusOK |})
    nodeDef log
  = (Returned (Some [], "string"), log).
Proof. reflexivity. Qed.

(** How the type switch is left: its [return] statements return the
    nil payload and the empty tag type; at its end the payload is not
    the nil slice, so that the check after the switch cannot fire, and
    the tag type is set. *)
Lemma type_switch_flow (v : Value) (nodeDef : NodeDef.t) (log log' : Logger) (f : flow) :
  type_switch v make_bytes nodeDef log = (Returned f, log') ->
  match f with
  | Return_ b tagType => b = None /\ tagType = ""
  | Break_ b tagType => b <> None /\ tagType <> ""
  end.
Proof.
  destruct v as [ | | | | | | | | | | | | | | eo | eos | other ];
    cbv [type_switch make_bytes append bind ret deref panic String_ Errorf Warnf];
    try (intros [= <- _]; split; discriminate).
  - destruct eo as [ eo' | ]; [ | discriminate ].
    destruct (ExtensionObject.Value eo') as [ value | ].
    + destruct (json_Marshal value); [ intros [= <- _]; split; discriminate | ].
      intros [= <- _]. now split.
    + destruct (ExtensionObject.TypeID eo') as [ typeID | ]; [ | discriminate ].
      intros [= <- _]. now split.
  - destruct (List.length (fold_left collect eos []) =? 0)%nat.
    + intros [= <- _]. now split.
    + destruct (json_Marshal_slice (fold_left collect eos []));
        [ intros [= <- _]; split; discriminate | ].
      intros [= <- _]. now split.
  - destruct (json_Marshal other); [ intros [= <- _]; split; discriminate | ].
    intros [= <- _]. now split.
Qed.

(** C6. The codec at a structured value without decoded representation
    and without type identifier, as
    [&ua.ExtensionObject{Value: nil}] is: building the warning
    dereferences the nil [TypeID], and the call panics. *)
Theorem undecodable_without_TypeID_panics (nodeDef : NodeDef.t) (log : Logger) :
  getBytesFromValue
    (Some {| DataValue.Value :=
               Some (VExtensionObject
                       (Some {| ExtensionObject.EncodingMask := 0;
                                ExtensionObject.TypeID := None;
                                ExtensionObject.Value := None |}));
             DataValue.Status := ua.StatusOK |})
    nodeDef log
  = (Panicked nil_dereference, log).
Proof. run. destruct (NodeDef.NodeID nodeDef); reflexivity. Qed.

(** A structured value without decoded representation whose type
    identifier is there is suppressed, with the warning naming the tag
    and the type. *)
Lemma undecodable_is_suppressed
  (eo : ExtensionObject.t) (typeID : ExpandedNodeID.t)
  (nodeDef : NodeDef.t) (log : Logger) :
  ExtensionObject.Value eo = None ->
  ExtensionObject.TypeID eo = Some typeID ->
  getBytesFromValue
    (Some {| DataValue.Value := Some (VExtensionObject (Some eo));
             DataValue.Status := ua.StatusOK |})
    nodeDef log
  = (Returned Suppressed,
     (log ++ [skipped_undecodable (NodeDef.NodeID nodeDef)
                (ExpandedNodeID.NodeID typeID)])%list).
Proof.
  intros Hvalue HtypeID. run.
  rewrite Hvalue, HtypeID. reflexivity.
Qed.

(** In range, the conversions to 64 bits keep the value. *)
Lemma signed_in_range (t : IntType) (w v : Z) :
  In (t, w) [(Int8, 8); (Int16, 16); (Int32, 32); (Int64, 64)] ->
  MinOf t <= v <= MaxOf t -> signed w v = v.
Proof.
  intros Hin Hv. unfold signed.
  repeat (destruct Hin as [ [= <- <-] | Hin ];
          [ cbv [MinOf MaxOf] in Hv;
            match goal with
            | |- context [2 ^ (?w - 1)] =>
                let p := eval vm_compute in (2 ^ (w - 1)) in
                let q := eval vm_compute in (2 ^ w) in
                change (2 ^ (w - 1)) with p in *; change (2 ^ w) with q
            end;
            Z.div_mod_to_equations; lia | ]).
  destruct Hin.
Qed.

Lemma unsigned_in_range (t : IntType) (w v : Z) :
  In (t, w) [(Uint8, 8); (Uint16, 16); (Uint32, 32); (Uint64, 64)] ->
  MinOf t <= v <= MaxOf t -> unsigned w v = v.
Proof.
  intros Hin Hv. unfold unsigned.
  repeat (destruct Hin as [ [= <- <-] | Hin ];
          [ cbv [MinOf MaxOf] in Hv; apply Z.mod_small; lia | ]).
  destruct Hin.
Qed.

(** C7. An integer scalar of width 8, 16, 32 or 64 bits, signed or
    unsigned, with value [v] and status OK decodes to tag type "number"
    and to a payload that is the base-10 text of [v]: it reads back as
    [v], has no leading zeros, and starts with a minus sign exactly when
    [v] is negative; no other text does. *)
Theorem integer_payload_is_base10_text
  (t : IntType) (v : Z) (nodeDef : NodeDef.t) (log : Logger) :
  MinOf t <= v <= MaxOf t ->
  exists s : string,
    getBytesFromValue
      (Some {| DataValue.Value := Some (integer t v); DataValue.Status := ua.StatusOK |})
      nodeDef log
    = (Returned (Some (bytes_of_string s), "number"), log) /\
    base10_text s v /\
    (forall s', base10_text s' v -> s' = s).
Proof.
  intros Hv.
  assert (Htext : exists s : string,
    getBytesFromValue
      (Some {| DataValue.Value := Some (integer t v); DataValue.Status := ua.StatusOK |})
      nodeDef log
    = (Returned (Some (bytes_of_string s), "number"), log) /\
    base10_text s v).
  { destruct t; cbn [integer]; run;
      match goal with
      | |- context [strconv.FormatInt (signed ?w v)] =>
          exists (strconv.FormatInt (signed w v)); split; [ reflexivity | ];
          rewrite (signed_in_range (t := _) (w := w) (v := v)) by (cbn; tauto || exact Hv);
          apply strconv_facts.FormatInt_base10_text
      | |- context [strconv.FormatUint (unsigned ?w v)] =>
          exists (strconv.FormatUint (unsigned w v)); split; [ reflexivity | ];
          rewrite (unsigned_in_range (t := _) (w := w) (v := v)) by (cbn; tauto || exact Hv);
          apply strconv_facts.FormatUint_base10_text
      end;
      cbv [MinOf MaxOf] in Hv; lia. }
  destruct Htext as (s & Hrun & Hs).
  exists s. repeat split; try apply Hs; [ exact Hrun | ].
  intros s' Hs'. now apply strconv_facts.base10_text_unique with v.
Qed.

(** A floating point scalar with status OK decodes to tag type
    "number" and to what [strconv.FormatFloat] prints for it. *)
Lemma float_payload_is_FormatFloat (nodeDef : NodeDef.t) (log : Logger) :
  (forall v : float32,
     getBytesFromValue
       (Some {| DataValue.Value := Some (VFloat32 v); DataValue.Status := ua.StatusOK |})
       nodeDef log
     = (Returned (Some (bytes_of_string (FormatFloat32 v)), "number"), log)) /\
  (forall v : float64,
     getBytesFromValue
       (Some {| DataValue.Value := Some (VFloat64 v); DataValue.Status := ua.StatusOK |})
       nodeDef log
     = (Returned (Some (bytes_of_string (FormatFloat64 v)), "number"), log)).
Proof. split; reflexivity. Qed.

(** *** Arrays of structured values *)

(** [decodable] keeps the order of the array and holds exactly the
    decoded representations of its elements. *)
Lemma decodable_app (v1 v2 : list (option ExtensionObject.t)) :
  decodable (v1 ++ v2) = (decodable v1 ++ decodable v2)%list.
Proof.
  induction v1 as [ | eo v1 IH ]; cbn [app decodable]; [ reflexivity | ].
  destruct (decoded_representation eo); cbn [app]; now rewrite IH.
Qed.

Lemma In_decodable (v : list (option ExtensionObject.t)) (value : iface) :
  In value (decodable v) <->
  exists eo, In eo v /\ decoded_representation eo = Some value.
Proof.
  induction v as [ | eo v IH ]; cbn [decodable In].
  - split; [ contradiction | intros (eo & [] & _) ].
  - destruct (decoded_representation eo) as [ value' | ] eqn:E; cbn [In]; rewrite IH.
    + split.
      * intros [ <- | (eo' & Hin & H) ]; [ now exists eo; auto | exists eo'; auto ].
      * intros (eo' & [ <- | Hin ] & H); [ left; congruence | right; now exists eo' ].
    + split.
      * intros (eo' & Hin & H). exists eo'; auto.
      * intros (eo' & [ <- | Hin ] & H); [ congruence | now exists eo' ].
Qed.

(** The array case in terms of the decodable elements. *)
Lemma array_decodes (v : list (option ExtensionObject.t)) (nodeDef : NodeDef.t) (log : Logger) :
  getBytesFromValue (array_value v) nodeDef log =
  match decodable v with
  | [] =>
      (Returned Suppressed,
       (log ++ [skipped_array (NodeDef.NodeID nodeDef) (List.length v)])%list)
  | _ :: _ =>
      match json_Marshal_slice (decodable v) with
      | inl jsonBytes => (Returned (Some jsonBytes, "string"), log)
      | inr err =>
          (Returned Suppressed,
           (log ++ [array_marshal_error (NodeDef.NodeID nodeDef) err])%list)
      end
  end.
Proof.
  unfold array_value. run. rewrite collect_decodable. cbn [app].
  destruct (decodable v) as [ | value rest ]; cbn [List.length Nat.eqb].
  - reflexivity.
  - destruct (json_Marshal_slice (value :: rest)); reflexivity.
Qed.

(** C5. For an array of structured values: when at least one element
    has a decoded representation and the decodable elements, taken in
    their original order, serialize, the codec returns that
    serialization with tag type "string"; when their serialization
    fails, or when no element is decodable, it returns Suppressed. *)
Theorem array_payload_is_json_of_decodable
  (v : list (option ExtensionObject.t)) (nodeDef : NodeDef.t) (log : Logger) :
  (decodable v <> [] ->
   forall jsonBytes, json_Marshal_slice (decodable v) = inl jsonBytes ->
   getBytesFromValue (array_value v) nodeDef log = (Returned (Some jsonBytes, "string"), log)) /\
  (decodable v <> [] ->
   forall err, json_Marshal_slice (decodable v) = inr err ->
   getBytesFromValue (array_value v) nodeDef log =
   (Returned Suppressed, (log ++ [array_marshal_error (NodeDef.NodeID nodeDef) err])%list)) /\
  (decodable v = [] ->
   getBytesFromValue (array_value v) nodeDef log =
   (Returned Suppressed,
    (log ++ [skipped_array (NodeDef.NodeID nodeDef) (List.length v)])%list)).
Proof.
  rewrite array_decodes.
  repeat split.
  - intros Hsome jsonBytes Hjson. rewrite Hjson.
    destruct (decodable v); [ contradiction | reflexivity ].
  - intros Hsome err Hjson. rewrite Hjson.
    destruct (decodable v); [ contradiction | reflexivity ].
  - intros ->. reflexivity.
Qed.

Lemma decodable_nil_as (undecodable : ExtensionObject.t) (v : list (option ExtensionObject.t)) :
  ExtensionObject.Value undecodable = None ->
  decodable (map (nil_as undecodable) v) = decodable v.
Proof.
  intros Hnone. induction v as [ | [ eo | ] v IH ]; cbn [map decodable nil_as].
  - reflexivity.
  - now rewrite IH.
  - cbn [decoded_representation]. now rewrite Hnone.
Qed.

Lemma decodable_without_nil (v : list (option ExtensionObject.t)) :
  decodable (without_nil v) = decodable v.
Proof.
  induction v as [ | [ eo | ] v IH ]; cbn [without_nil filter decodable].
  - reflexivity.
  - fold (without_nil v). now rewrite IH.
  - exact IH.
Qed.

Lemma decodable_all_nil (v : list (option ExtensionObject.t)) :
  Forall (fun eo => eo = None) v -> decodable v = [].
Proof.
  induction 1 as [ | eo v -> _ IH ]; [ reflexivity | exact IH ].
Qed.

(** C10. In an array of structured values a nil pointer is treated
    like an element without decoded representation: replacing the nil
    elements by such elements changes neither the result nor what is
    logged, the total in the warning included; the payload is the one
    of the array with the nil elements left out; and an array of nil
    pointers only is suppressed, the warning reporting all of them in
    its total. *)
Theorem nil_elements_are_undecodable_elements
  (v : list (option ExtensionObject.t)) (undecodable : ExtensionObject.t)
  (nodeDef : NodeDef.t) (log : Logger) :
  ExtensionObject.Value undecodable = None ->
  getBytesFromValue (array_value v) nodeDef log =
    getBytesFromValue (array_value (map (nil_as undecodable) v)) nodeDef log /\
  fst (getBytesFromValue (array_value v) nodeDef log) =
    fst (getBytesFromValue (array_value (without_nil v)) nodeDef log) /\
  (Forall (fun eo => eo = None) v ->
   getBytesFromValue (array_value v) nodeDef log =
   (Returned Suppressed,
    (log ++ [skipped_array (NodeDef.NodeID nodeDef) (List.length v)])%list)).
Proof.
  intros Hnone. rewrite !array_decodes.
  rewrite decodable_nil_as, decodable_without_nil, length_map by exact Hnone.
  repeat split.
  - destruct (decodable v); [ reflexivity | ].
    destruct (json_Marshal_slice _); reflexivity.
  - intros Hall. now rewrite (decodable_all_nil Hall).
Qed.

(** *** The result does not depend on the logger *)

Lemma oblivious_ret {A : Type} (a : A) : oblivious (ret a).
Proof. exists (Returned a), []. intros log. unfold ret. now rewrite app_nil_r. Qed.

Lemma oblivious_panic {A : Type} (msg : string) : oblivious (@panic A msg).
Proof. exists (Panicked msg), []. intros log. unfold panic. now rewrite app_nil_r. Qed.

Lemma oblivious_bind {A B : Type} (m : M A) (k : A -> M B) :
  oblivious m -> (forall a, oblivious (k a)) -> oblivious (bind m k).
Proof.
  intros (r & entries & Hm) Hk. destruct r as [ a | msg ].
  - destruct (Hk a) as (r' & entries' & Hka).
    exists r', (entries ++ entries')%list. intros log.
    unfold bind. now rewrite Hm, Hka, app_assoc.
  - exists (Panicked msg), entries. intros log. unfold bind. now rewrite Hm.
Qed.

Lemma oblivious_deref {A : Type} (p : option A) : oblivious (deref p).
Proof. destruct p; [ apply oblivious_ret | apply oblivious_panic ]. Qed.

Lemma oblivious_Errorf (format : string) (args : list Arg) : oblivious (Errorf format args).
Proof. now exists (Returned tt), [Build_LogCall LevelError format args]. Qed.

Lemma oblivious_Warnf (format : string) (args : list Arg) : oblivious (Warnf format args).
Proof. now exists (Returned tt), [Build_LogCall LevelWarn format args]. Qed.

Lemma oblivious_String_ (n : option NodeID) : oblivious (String_ n).
Proof. apply oblivious_ret. Qed.

Create HintDb oblivious.
#[local] Hint Resolve oblivious_ret oblivious_panic oblivious_deref oblivious_Errorf
  oblivious_Warnf oblivious_String_ : oblivious.

(** Follow the structure of a computation down to its calls. *)
Ltac oblivious :=
  repeat first
    [ apply oblivious_bind; [ | intros ? ]
    | solve [ auto with oblivious ]
    | match goal with
      | |- oblivious (match ?x with _ => _ end) => destruct x
      | |- oblivious (if ?x then _ else _) => destruct x
      end ].

Lemma oblivious_type_switch (v : Value) (b : slice) (nodeDef : NodeDef.t) :
  oblivious (type_switch v b nodeDef).
Proof. unfold type_switch. oblivious. Qed.

Lemma oblivious_getBytesFromValue (dataValue : option DataValue.t) (nodeDef : NodeDef.t) :
  oblivious (getBytesFromValue dataValue nodeDef).
Proof.
  unfold getBytesFromValue.
  apply oblivious_bind; [ apply oblivious_deref | intros dataValue' ].
  destruct (DataValue.Value dataValue'); [ | oblivious ].
  destruct (negb _); [ oblivious | ].
  apply oblivious_bind; [ apply oblivious_type_switch | intros f ].
  oblivious.
Qed.

(** The result of the codec, payload and tag type (or the panic), is
    the same from any two loggers; a second call on the same input,
    made after the first has logged, returns the result of the first. *)
Lemma result_does_not_depend_on_logger
  (dataValue : option DataValue.t) (nodeDef : NodeDef.t) (log log' : Logger) :
  fst (getBytesFromValue dataValue nodeDef log) =
    fst (getBytesFromValue dataValue nodeDef log') /\
  fst (getBytesFromValue dataValue nodeDef
         (snd (getBytesFromValue dataValue nodeDef log))) =
    fst (getBytesFromValue dataValue nodeDef log).
Proof.
  destruct (oblivious_getBytesFromValue dataValue nodeDef) as (r & entries & H).
  now rewrite !H.
Qed.

(** Whatever the codec returns, the payload is nil exactly when the
    tag type is empty. *)
Lemma nil_payload_iff_empty_tagType
  (dataValue : option DataValue.t) (nodeDef : NodeDef.t) (log log' : Logger)
  (b : slice) (tagType : string) :
  getBytesFromValue dataValue nodeDef log = (Returned (b, tagType), log') ->
  (b = None <-> tagType = "").
Proof.
  unfold getBytesFromValue, bind at 1, deref.
  destruct dataValue as [ dataValue' | ]; [ | discriminate ].
  cbv [ret]. destruct (DataValue.Value dataValue') as [ v | ].
  - destruct (negb _).
    + cbv [String_ bind deref ret panic Warnf].
      intros [= <- <- _]. tauto.
    + unfold bind at 1.
      destruct (type_switch v make_bytes nodeDef log) as [ [ f | msg ] log1 ] eqn:E;
        [ | discriminate ].
      apply type_switch_flow in E.
      destruct f as [ b' t' | [ l | ] t' ]; destruct E as [Hb Ht].
      * cbv [ret]. intros [= <- <- _]. tauto.
      * cbv [ret]. intros [= <- <- _]. split; [ discriminate | contradiction ].
      * contradiction.
  - cbv [Errorf bind]. intros [= <- <- _]. tauto.
Qed.

End Codec.

(** ** errors.Is and the fault classification *)

(** Induction over errors, through the lists of joined errors. *)
Lemma error_induction (P : error -> Prop) :
  (forall c, P (StatusError c)) ->
  (forall msg, P (ErrorString msg)) ->
  (forall msg err, P err -> P (WrapError msg err)) ->
  (forall errs, Forall P errs -> P (JoinError errs)) ->
  forall err, P err.
Proof.
  intros Hstatus Hstring Hwrap Hjoin.
  fix IH 1. intros [ c | msg | msg err | errs ].
  - apply Hstatus.
  - apply Hstring.
  - apply Hwrap, IH.
  - apply Hjoin. induction errs as [ | e errs IHerrs ]; constructor.
    + apply IH.
    + exact IHerrs.
Qed.

(** [errors.Is] on a join is [errors.Is] on one of the joined errors. *)
Lemma errors_Is_join (errs : list error) (target : StatusCode) :
  errors_Is (JoinError errs) target = existsb (fun e => errors_Is e target) errs.
Proof.
  cbn [errors_Is]. induction errs as [ | e errs IH ]; [ reflexivity | ].
  cbn [existsb]. now rewrite <- IH.
Qed.

(** [errors.Is] decides the unwrapping relation. *)
Lemma errors_Is_Unwraps (err : error) (target : StatusCode) :
  errors_Is err target = true <-> Unwraps err (StatusError target).
Proof.
  split.
  - induction err as [ c | msg | msg err IH | errs IH ] using error_induction.
    + cbn [errors_Is]. intros E. apply Z.eqb_eq in E. subst. constructor.
    + discriminate.
    + cbn [errors_Is]. intros E. constructor. now apply IH.
    + rewrite errors_Is_join, existsb_exists. intros (e & Hin & E).
      rewrite Forall_forall in IH.
      apply Unwraps_join with e; [ exact Hin | now apply IH ].
  - intros Hu. remember (StatusError target) as t eqn:Et.
    induction Hu as [ e | msg err e Hu IH | errs err e Hin Hu IH ]; subst.
    + cbn [errors_Is]. apply Z.eqb_refl.
    + cbn [errors_Is]. now apply IH.
    + rewrite errors_Is_join, existsb_exists. exists err. split; [ exact Hin | now apply IH ].
Qed.

(** The switch of [Read] asks for the statuses of the fault set. *)
Lemma SessionFatal_decided (err : error) :
  SessionFatal err <-> existsb (errors_Is err) fatal_statuses = true.
Proof.
  unfold SessionFatal. rewrite existsb_exists.
  split; intros (c & Hin & H); exists c; (split; [ exact Hin | ]);
    now apply errors_Is_Unwraps.
Qed.

Lemma ErrNotConnected_not_fatal : ~ SessionFatal service.ErrNotConnected.
Proof. rewrite SessionFatal_decided. discriminate. Qed.

(** ** The read coordinator *)

Section ReadCoordinator.
Context `{SH : Session}.

(** [Read] on a failed read, by the classification of the error. *)
Lemma Read_failure (w : World) (ctx : Context) (req : option ReadRequest)
  (resp : option ReadResponse) (err : error) (client' : Client) :
  Client_Read (OPCUAConnection.Client (conn w)) ctx req = ((resp, Some err), client') ->
  Read w ctx req =
  if existsb (errors_Is err) fatal_statuses then
    ((None, Some service.ErrNotConnected),
     {| conn := snd (Close (after_failed_read w client' err) ctx);
        calls := (calls w ++ [CallClientRead; CallClose])%list |})
  else
    ((None, Some err),
     {| conn := after_failed_read w client' err;
        calls := (calls w ++ [CallClientRead])%list |}).
Proof.
  intros Hread. unfold Read, call_Client_Read. rewrite Hread.
  assert (Hclose :
    close_and_signal
      (call_Errorf
         {| conn := {| OPCUAConnection.Client := client';
                       OPCUAConnection.Log := OPCUAConnection.Log (conn w) |};
            calls := (calls w ++ [CallClientRead])%list |}
         "Read failed: %s" [ArgError err]) ctx
    = ((None, Some service.ErrNotConnected),
       {| conn := snd (Close (after_failed_read w client' err) ctx);
          calls := (calls w ++ [CallClientRead; CallClose])%list |})).
  { unfold close_and_signal, call_Close, call_Errorf, after_failed_read, read_failed, Errorf.
    cbn [conn calls OPCUAConnection.Client OPCUAConnection.Log snd].
    destruct (Close _ ctx) as [e g]. cbn [snd]. now rewrite <- app_assoc. }
  cbn [existsb fatal_statuses].
  repeat (destruct (errors_Is err _); [ exact Hclose | ]).
  reflexivity.
Qed.

Lemma close_count_app (l l' : list Call) :
  close_count (l ++ l') = (close_count l + close_count l')%nat.
Proof. unfold close_count. now rewrite filter_app, length_app. Qed.

(** C2. When the session handle's read fails with an error classified
    SessionFatal (the error is or wraps one of the six statuses of the
    fault set), [Read] calls the connection's [Close] once, after the
    read and its log entry, keeps what [Close] leaves of the
    connection, and returns no response and the canonical
    [service.ErrNotConnected], which is not the original error,
    whatever [Close] itself returns. *)
Theorem Read_session_fatal
  (w : World) (ctx : Context) (req : option ReadRequest)
  (resp : option ReadResponse) (err : error) (client' : Client) :
  Client_Read (OPCUAConnection.Client (conn w)) ctx req = ((resp, Some err), client') ->
  SessionFatal err ->
  Read w ctx req =
    ((None, Some service.ErrNotConnected),
     {| conn := snd (Close (after_failed_read w client' err) ctx);
        calls := (calls w ++ [CallClientRead; CallClose])%list |}) /\
  close_count (calls (snd (Read w ctx req))) = S (close_count (calls w)) /\
  service.ErrNotConnected <> err.
Proof.
  intros Hread Hfatal.
  rewrite (Read_failure w ctx req Hread).
  pose proof Hfatal as Hdec. apply SessionFatal_decided in Hdec. rewrite Hdec.
  repeat split.
  - cbn [snd calls]. rewrite close_count_app. cbn. lia.
  - intros <-. now apply ErrNotConnected_not_fatal.
Qed.

(** C4. When the session handle's read fails with an error that is
    not classified SessionFatal, [Read] does not call [Close]: it logs
    the failure and returns no response and the original error. *)
Theorem Read_other_failure
  (w : World) (ctx : Context) (req : option ReadRequest)
  (resp : option ReadResponse) (err : error) (client' : Client) :
  Client_Read (OPCUAConnection.Client (conn w)) ctx req = ((resp, Some err), client') ->
  ~ SessionFatal err ->
  Read w ctx req =
    ((None, Some err),
     {| conn := after_failed_read w client' err;
        calls := (calls w ++ [CallClientRead])%list |}) /\
  close_count (calls (snd (Read w ctx req))) = close_count (calls w).
Proof.
  intros Hread Hother.
  rewrite (Read_failure w ctx req Hread).
  rewrite SessionFatal_decided in Hother.
  destruct (existsb (errors_Is err) fatal_statuses); [ contradiction | ].
  split; [ reflexivity | ].
  cbn [snd calls]. rewrite close_count_app. cbn. lia.
Qed.

(** A successful read is returned as it is, with no call of [Close]. *)
Lemma Read_success (w : World) (ctx : Context) (req : option ReadRequest)
  (resp : option ReadResponse) (client' : Client) :
  Client_Read (OPCUAConnection.Client (conn w)) ctx req = ((resp, None), client') ->
  Read w ctx req =
    ((resp, None),
     {| conn := {| OPCUAConnection.Client := client';
                   OPCUAConnection.Log := OPCUAConnection.Log (conn w) |};
        calls := (calls w ++ [CallClientRead])%list |}).
Proof. intros Hread. unfold Read, call_Client_Read. now rewrite Hread. Qed.

End ReadCoordinator.

(** ** The tests of core_read_test.go, and the properties at work *)

Section Tests.
Import Fixture.

Example int32_with_OK_status :
  getBytesFromValue (dataValue ua.StatusOK (VInt32 42)) nodeDef []
  = (Returned (Some (bytes_of_string "42"), "number"), []).
Proof. reflexivity. Qed.

Example string_with_OK_status :
  getBytesFromValue (dataValue ua.StatusOK (VString "hello")) nodeDef []
  = (Returned (Some (bytes_of_string "hello"), "string"), []).
Proof. reflexivity. Qed.

Example bool_with_OK_status :
  getBytesFromValue (dataValue ua.StatusOK (VBool true)) nodeDef []
  = (Returned (Some (bytes_of_string "true"), "bool"), []).
Proof. reflexivity. Qed.

Example nil_variant :
  getBytesFromValue
    (Some {| DataValue.Value := None; DataValue.Status := ua.StatusOK |}) nodeDef []
  = (Returned Suppressed, [variant_is_nil]).
Proof. reflexivity. Qed.

Example undecodable_with_TypeID :
  getBytesFromValue
    (dataValue ua.StatusOK (VExtensionObject (Some (undecodable 4 202)))) nodeDef []
  = (Returned Suppressed,
     [skipped_undecodable (Some (NewNumericNodeID 0 1001)) (Some (NewNumericNodeID 4 202))]).
Proof. reflexivity. Qed.

Example decoded_structure :
  getBytesFromValue
    (dataValue ua.StatusOK (VExtensionObject (Some (filter_object F1_5)))) nodeDef []
  = (Returned (Some (bytes_of_string filter_1_5_json), "string"), []).
Proof. reflexivity. Qed.

Example all_undecodable_array :
  getBytesFromValue
    (array_value [Some (undecodable 4 202); Some (undecodable 4 203)]) nodeDef []
  = (Returned Suppressed, [skipped_array (Some (NewNumericNodeID 0 1001)) 2]).
Proof. reflexivity. Qed.

Example mixed_array :
  getBytesFromValue
    (array_value [Some (undecodable 4 202); Some (filter_object F1_5)]) nodeDef []
  = (Returned (Some (bytes_of_string ("[" ++ Fixture.filter_1_5_json ++ "]")), "string"), []).
Proof. reflexivity. Qed.

Example bad_status_without_NodeID :
  getBytesFromValue (dataValue ua.StatusBadNodeIDUnknown (VInt32 42))
    {| NodeDef.NodeID := None; NodeDef.BrowseName := "TestNode" |} []
  = (Returned Suppressed,
     [ {| level := LevelWarn;
          format := "Skipping node %s: status %v";
          args := [ArgString ""; ArgStatus ua.StatusBadNodeIDUnknown] |} ]).
Proof. reflexivity. Qed.

Example all_nil_array_without_NodeID :
  getBytesFromValue (array_value [None; None])
    {| NodeDef.NodeID := None; NodeDef.BrowseName := "TestNode" |} []
  = (Returned Suppressed, [skipped_array None 2]).
Proof. reflexivity. Qed.

(** C3 on the input of the test "should return nil for any non-OK
    status". *)
Lemma bad_status_is_suppressed_witness :
  ua.StatusBadNodeIDUnknown <> ua.StatusOK /\
  getBytesFromValue (Fixture.dataValue ua.StatusBadNodeIDUnknown (VInt32 42)) Fixture.nodeDef []
  = (Returned Suppressed,
     [skipped_for_status (Some (Fixture.NewNumericNodeID 0 1001)) ua.StatusBadNodeIDUnknown]).
Proof.
  assert (Hbad : ua.StatusBadNodeIDUnknown <> ua.StatusOK) by discriminate.
  split; [ exact Hbad | ].
  exact (@bad_status_is_suppressed Fixture.runtime
           {| DataValue.Value := Some (VInt32 42);
              DataValue.Status := ua.StatusBadNodeIDUnknown |}
           Fixture.nodeDef [] Hbad).
Defined.

(** C7 at the least int8. *)
Lemma integer_payload_is_base10_text_witness :
  MinOf Int8 <= -128 <= MaxOf Int8 /\
  exists s : string,
    getBytesFromValue (Fixture.dataValue ua.StatusOK (VInt8 (-128))) Fixture.nodeDef []
    = (Returned (Some (bytes_of_string s), "number"), []) /\
    base10_text s (-128) /\
    (forall s', base10_text s' (-128) -> s' = s).
Proof.
  assert (Hrange : MinOf Int8 <= -128 <= MaxOf Int8) by (cbv [MinOf MaxOf]; lia).
  split; [ exact Hrange | ].
  exact (@integer_payload_is_base10_text Fixture.runtime Int8 (-128) Fixture.nodeDef [] Hrange).
Defined.

(** Against C5 without its proviso: an array whose one element
    has a decoded representation, a data change filter with a NaN
    deadband, which [json.Marshal] rejects; the codec returns
    Suppressed, not a serialization. *)
Lemma array_with_unserializable_element :
  let v := [Some (Fixture.filter_object Fixture.NaN)] in
  (exists eo value, In eo v /\ decoded_representation eo = Some value) /\
  getBytesFromValue (array_value v) Fixture.nodeDef []
  = (Returned Suppressed,
     [array_marshal_error (Some (Fixture.NewNumericNodeID 0 1001))
        (ErrorString "json: unsupported value: NaN")]) /\
  (forall jsonBytes,
     fst (getBytesFromValue (array_value v) Fixture.nodeDef [])
     <> Returned (Some jsonBytes, "string")).
Proof.
  cbv zeta. split; [ | split ].
  - eexists _, _. split; [ left; reflexivity | reflexivity ].
  - reflexivity.
  - intros jsonBytes. discriminate.
Qed.

(** C5 at the mixed array of the tests, at an
    array with an element that does not serialize, and an array without
    decodable elements. *)
Lemma array_payload_is_json_of_decodable_witness :
  getBytesFromValue
    (array_value [Some (Fixture.undecodable 4 202); Some (Fixture.filter_object Fixture.F1_5)])
    Fixture.nodeDef []
  = (Returned (Some (bytes_of_string ("[" ++ Fixture.filter_1_5_json ++ "]")), "string"), []) /\
  getBytesFromValue
    (array_value [Some (Fixture.filter_object Fixture.NaN)]) Fixture.nodeDef []
  = (Returned Suppressed,
     [array_marshal_error (Some (Fixture.NewNumericNodeID 0 1001))
        (ErrorString "json: unsupported value: NaN")]) /\
  getBytesFromValue
    (array_value [Some (Fixture.undecodable 4 202); Some (Fixture.undecodable 4 203)])
    Fixture.nodeDef []
  = (Returned Suppressed, [skipped_array (Some (Fixture.NewNumericNodeID 0 1001)) 2]).
Proof.
  pose (thm := fun v =>
    @array_payload_is_json_of_decodable Fixture.runtime v Fixture.nodeDef []).
  split; [ | split ].
  - apply (proj1 (thm [Some (Fixture.undecodable 4 202);
                       Some (Fixture.filter_object Fixture.F1_5)])).
    + discriminate.
    + reflexivity.
  - apply (proj1 (proj2 (thm [Some (Fixture.filter_object Fixture.NaN)]))).
    + discriminate.
    + reflexivity.
  - apply (proj2 (proj2 (thm [Some (Fixture.undecodable 4 202);
                              Some (Fixture.undecodable 4 203)]))).
    reflexivity.
Defined.

(** C10 at an array with two nil pointers around a
    decoded element, and an array of two nil pointers. *)
Lemma nil_elements_are_undecodable_elements_witness :
  let decode v := getBytesFromValue (array_value v) Fixture.nodeDef [] in
  let v := [None; Some (Fixture.filter_object Fixture.F0_5); None] in
  decode v = decode (map (nil_as (Fixture.undecodable 4 202)) v) /\
  fst (decode v) = fst (decode (without_nil v)) /\
  decode [None; None]
  = (Returned Suppressed, [skipped_array (Some (Fixture.NewNumericNodeID 0 1001)) 2]).
Proof.
  cbv zeta.
  pose (thm := fun v =>
    @nil_elements_are_undecodable_elements Fixture.runtime v (Fixture.undecodable 4 202)
      Fixture.nodeDef [] eq_refl).
  split; [ | split ].
  - exact (proj1 (thm [None; Some (Fixture.filter_object Fixture.F0_5); None])).
  - exact (proj1 (proj2 (thm [None; Some (Fixture.filter_object Fixture.F0_5); None]))).
  - apply (proj2 (proj2 (thm [None; None]))).
    repeat constructor.
Defined.

(** C2 at a read that fails with a wrapped timeout, on a
    connection whose [Close] fails itself. *)
Lemma Read_session_fatal_witness :
  let err := WrapError "read" (StatusError ua.StatusBadTimeout) in
  let w := Fixture.world [(None, Some err)] in
  SessionFatal err /\
  Read w tt None =
    ((None, Some service.ErrNotConnected),
     {| conn := {| OPCUAConnection.Client := [];
                   OPCUAConnection.Log := [read_failed err] |};
        calls := [CallClientRead; CallClose] |}) /\
  close_count (calls (snd (Read w tt None))) = 1%nat /\
  service.ErrNotConnected <> err.
Proof.
  cbv zeta.
  assert (Hfatal : SessionFatal (WrapError "read" (StatusError ua.StatusBadTimeout))).
  { exists ua.StatusBadTimeout. split.
    - right. right. right. left. reflexivity.
    - apply Unwraps_wrap, Unwraps_refl. }
  split; [ exact Hfatal | ].
  exact (@Read_session_fatal Fixture.session
           (Fixture.world [(None, Some (WrapError "read" (StatusError ua.StatusBadTimeout)))])
           tt None None (WrapError "read" (StatusError ua.StatusBadTimeout)) []
           eq_refl Hfatal).
Defined.

(** C4 at a read that fails with a status outside the
    fault set. *)
Lemma Read_other_failure_witness :
  let err := StatusError ua.StatusBadNodeIDUnknown in
  let w := Fixture.world [(None, Some err)] in
  ~ SessionFatal err /\
  Read w tt None =
    ((None, Some err),
     {| conn := {| OPCUAConnection.Client := [];
                   OPCUAConnection.Log := [read_failed err] |};
        calls := [CallClientRead] |}) /\
  close_count (calls (snd (Read w tt None))) = 0%nat.
Proof.
  cbv zeta.
  assert (Hother : ~ SessionFatal (StatusError ua.StatusBadNodeIDUnknown)).
  { intros Hfatal. apply SessionFatal_decided in Hfatal. discriminate Hfatal. }
  split; [ exact Hother | ].
  exact (@Read_other_failure Fixture.session
           (Fixture.world [(None, Some (StatusError ua.StatusBadNodeIDUnknown))])
           tt None None (StatusError ua.StatusBadNodeIDUnknown) []
           eq_refl Hother).
Defined.

End Tests.

(** ** More on the value codec: results, logging, panics *)

Section CodecResults.
Context `{R : Runtime}.

(** Unfold the codec down to its library calls. *)
Ltac exec :=
  cbv [getBytesFromValue ok_value array_value type_switch bind ret panic deref String_
       Errorf Warnf make_bytes append Suppressed structured platform_integer];
  cbn [DataValue.Value DataValue.Status NodeDef.NodeID ExtensionObject.Value
       ExtensionObject.TypeID ExpandedNodeID.NodeID errors_Is negb fst snd app].

(** Leaving the type switch: a [return] has logged one call, which is
    not the call of the check after the switch, and returns the nil
    payload; the end of the switch is reached without logging, with a
    payload that is not nil and one of the three tag types. *)
Lemma type_switch_result (v : Value) (nodeDef : NodeDef.t) (log log' : Logger) (f : flow) :
  type_switch v make_bytes nodeDef log = (Returned f, log') ->
  match f with
  | Return_ b tagType =>
      b = None /\ tagType = "" /\
      exists e, log' = (log ++ [e])%list /\ format e <> payload_is_empty_format
  | Break_ b tagType => b <> None /\ In tagType tagTypes /\ log' = log
  end.
Proof.
  assert (Hbreak : forall l t, In t tagTypes ->
            (Returned (Break_ (Some l) t), log) = (Returned f, log') ->
            match f with
            | Return_ b tagType =>
                b = None /\ tagType = "" /\
                exists e, log' = (log ++ [e])%list /\ format e <> payload_is_empty_format
            | Break_ b tagType => b <> None /\ In tagType tagTypes /\ log' = log
            end).
  { intros l t Ht [= <- <-]. repeat split; [ discriminate | exact Ht ]. }
  assert (Hreturn : forall e, format e <> payload_is_empty_format ->
            (Returned (Return_ None ""), (log ++ [e])%list) = (Returned f, log') ->
            match f with
            | Return_ b tagType =>
                b = None /\ tagType = "" /\
                exists e, log' = (log ++ [e])%list /\ format e <> payload_is_empty_format
            | Break_ b tagType => b <> None /\ In tagType tagTypes /\ log' = log
            end).
  { intros e He [= <- <-]. repeat split. now exists e. }
  destruct v as [ | | | | | | | | | | | | | | eo | eos | other ];
    cbv [type_switch make_bytes append bind ret deref panic String_ Errorf Warnf];
    try (apply Hbreak; cbv [tagTypes In]; tauto).
  - destruct eo as [ eo' | ]; [ | discriminate ].
    destruct (ExtensionObject.Value eo') as [ value | ].
    + destruct (json_Marshal value); [ apply Hbreak; cbv [tagTypes In]; tauto | ].
      apply Hreturn. discriminate.
    + destruct (ExtensionObject.TypeID eo') as [ typeID | ]; [ | discriminate ].
      apply Hreturn. discriminate.
  - destruct (List.length (fold_left collect eos []) =? 0)%nat.
    + apply Hreturn. discriminate.
    + destruct (json_Marshal_slice (fold_left collect eos []));
        [ apply Hbreak; cbv [tagTypes In]; tauto | ].
      apply Hreturn. discriminate.
  - destruct (json_Marshal other); [ apply Hbreak; cbv [tagTypes In]; tauto | ].
    apply Hreturn. discriminate.
Qed.

(** A panic in the type switch happens before anything is logged. *)
Lemma type_switch_panic (v : Value) (nodeDef : NodeDef.t) (log log' : Logger) (msg : string) :
  type_switch v make_bytes nodeDef log = (Panicked msg, log') -> log' = log.
Proof.
  destruct v as [ | | | | | | | | | | | | | | eo | eos | other ];
    cbv [type_switch make_bytes append bind ret deref panic String_ Errorf Warnf];
    try discriminate.
  - destruct eo as [ eo' | ]; [ | now intros [= _ <-] ].
    destruct (ExtensionObject.Value eo') as [ value | ].
    + destruct (json_Marshal value); discriminate.
    + destruct (ExtensionObject.TypeID eo') as [ typeID | ];
        [ discriminate | now intros [= _ <-] ].
  - destruct (List.length (fold_left collect eos []) =? 0)%nat; [ discriminate | ].
    destruct (json_Marshal_slice (fold_left collect eos [])); discriminate.
  - destruct (json_Marshal other); discriminate.
Qed.

(** Every way out of the codec. *)
Lemma getBytesFromValue_outcomes
  (dataValue : option DataValue.t) (nodeDef : NodeDef.t) (log : Logger) :
  match getBytesFromValue dataValue nodeDef log with
  | (Returned (b, tagType), log') =>
      (b = None /\ tagType = "" /\
       exists e, log' = (log ++ [e])%list /\ format e <> payload_is_empty_format) \/
      (b <> None /\ In tagType tagTypes /\ log' = log)
  | (Panicked _, log') => log' = log
  end.
Proof.
  unfold getBytesFromValue, bind at 1, deref.
  destruct dataValue as [ dataValue' | ]; [ | reflexivity ].
  cbv [ret]. destruct (DataValue.Value dataValue') as [ v | ].
  - destruct (negb _).
    + cbv [String_ bind deref ret panic Warnf].
      left. repeat split. eexists. split; [ reflexivity | discriminate ].
    + unfold bind at 1.
      destruct (type_switch v make_bytes nodeDef log) as [ [ f | msg ] log1 ] eqn:E.
      * apply type_switch_result in E.
        destruct f as [ b t | [ l | ] t ].
        -- destruct E as (-> & -> & e & -> & He). cbv [ret].
           left. repeat split. now exists e.
        -- destruct E as (Hb & Ht & ->). cbv [ret]. right. now repeat split.
        -- destruct E as (Hb & _). contradiction.
      * now apply type_switch_panic in E.
  - cbv [Errorf bind].
    left. repeat split. eexists. split; [ reflexivity | discriminate ].
Qed.

(** X1. Whatever the codec returns is either the suppressed result,
    the nil payload with the empty tag type, or a payload that is not
    nil with one of the tag types "number", "string" and "bool"; there
    is nothing in between. *)
Theorem result_is_suppressed_or_tagged
  (dataValue : option DataValue.t) (nodeDef : NodeDef.t) (log log' : Logger)
  (b : slice) (tagType : string) :
  getBytesFromValue dataValue nodeDef log = (Returned (b, tagType), log') ->
  (b, tagType) = Suppressed \/ (b <> None /\ In tagType tagTypes).
Proof.
  intros Hrun. pose proof (getBytesFromValue_outcomes dataValue nodeDef log) as H.
  rewrite Hrun in H.
  destruct H as [ (-> & -> & _) | (Hb & Ht & _) ]; [ now left | now right ].
Qed.

(** X2. The codec logs exactly when it suppresses: a suppressed result
    comes with one call appended to the logger, a result with a payload
    and a panic leave the logger as it was; the calls logged before are
    never touched. *)
Theorem logs_exactly_when_suppressing
  (dataValue : option DataValue.t) (nodeDef : NodeDef.t) (log : Logger) :
  match getBytesFromValue dataValue nodeDef log with
  | (Returned r, log') =>
      (r = Suppressed /\ exists e, log' = (log ++ [e])%list) \/
      (fst r <> None /\ log' = log)
  | (Panicked _, log') => log' = log
  end.
Proof.
  pose proof (getBytesFromValue_outcomes dataValue nodeDef log) as H.
  destruct (getBytesFromValue dataValue nodeDef log) as [ [ [b t] | msg ] log' ];
    [ | exact H ].
  destruct H as [ (-> & -> & e & -> & _) | (Hb & _ & ->) ].
  - left. split; [ reflexivity | now exists e ].
  - right. now split.
Qed.

(** X3. The check after the type switch never fires: no call of the
    codec adds the "payload is empty" error to the logger. *)
Theorem payload_is_empty_is_never_logged
  (dataValue : option DataValue.t) (nodeDef : NodeDef.t) (log : Logger) (e : LogCall) :
  In e (snd (getBytesFromValue dataValue nodeDef log)) ->
  format e = payload_is_empty_format ->
  In e log.
Proof.
  pose proof (getBytesFromValue_outcomes dataValue nodeDef log) as H.
  destruct (getBytesFromValue dataValue nodeDef log) as [ [ [b t] | msg ] log' ];
    cbn [snd]; [ | now subst ].
  destruct H as [ (_ & _ & e' & -> & He') | (_ & _ & ->) ]; [ | tauto ].
  intros Hin Hformat. apply in_app_or in Hin.
  destruct Hin as [ Hin | [ <- | [] ] ]; [ exact Hin | contradiction ].
Qed.

(** X4. The codec does not panic on an input whose pointers are there:
    a data value, a tag context with its node id, and a variant content
    that is [structure_complete]. *)
Theorem complete_input_never_panics
  (dataValue : DataValue.t) (nodeDef : NodeDef.t) (n : NodeID) (log : Logger) :
  NodeDef.NodeID nodeDef = Some n ->
  (forall v, DataValue.Value dataValue = Some v -> structure_complete v = true) ->
  exists r log', getBytesFromValue (Some dataValue) nodeDef log = (Returned r, log').
Proof.
  intros Hnode Hcomplete. destruct dataValue as [ [ v | ] status ]; exec;
    [ | eauto ].
  specialize (Hcomplete v eq_refl).
  destruct (status =? ua.StatusOK); cbn [negb]; rewrite ?Hnode; [ | eauto ].
  destruct v as [ | | | | | | | | | | | | | | eo | eos | other ]; try (cbn; eauto).
  - destruct eo as [ eo' | ]; [ | discriminate ].
    cbn [structure_complete] in Hcomplete. cbn.
    destruct (ExtensionObject.Value eo') as [ value | ].
    + destruct (json_Marshal value); cbn; rewrite ?Hnode; eauto.
    + rewrite ?Hnode.
      destruct (ExtensionObject.TypeID eo') as [ typeID | ]; [ | discriminate ].
      destruct (ExpandedNodeID.NodeID typeID); [ eauto | discriminate ].
  - cbn. destruct (List.length (fold_left collect eos []) =? 0)%nat; rewrite ?Hnode;
      [ eauto | ].
    destruct (json_Marshal_slice (fold_left collect eos [])); rewrite ?Hnode; eauto.
  - cbn. destruct (json_Marshal other); eauto.
Qed.

(** X5. The tag context only words the log: with any two tag contexts
    that carry a node id the codec returns the same result, or panics
    alike. *)
Theorem result_does_not_depend_on_nodeDef
  (dataValue : option DataValue.t) (nodeDef1 nodeDef2 : NodeDef.t) (n1 n2 : NodeID)
  (log : Logger) :
  NodeDef.NodeID nodeDef1 = Some n1 ->
  NodeDef.NodeID nodeDef2 = Some n2 ->
  fst (getBytesFromValue dataValue nodeDef1 log) =
  fst (getBytesFromValue dataValue nodeDef2 log).
Proof.
  intros H1 H2. destruct dataValue as [ [ [ v | ] status ] | ]; exec;
    try reflexivity.
  destruct (status =? ua.StatusOK); cbn [negb]; rewrite ?H1, ?H2; [ | reflexivity ].
  destruct v as [ | | | | | | | | | | | | | | eo | eos | other ]; try reflexivity.
  - destruct eo as [ eo' | ]; [ | reflexivity ].
    cbn. destruct (ExtensionObject.Value eo') as [ value | ].
    + destruct (json_Marshal value); rewrite ?H1, ?H2; reflexivity.
    + rewrite ?H1, ?H2.
      destruct (ExtensionObject.TypeID eo') as [ typeID | ]; [ | reflexivity ].
      destruct (ExpandedNodeID.NodeID typeID); reflexivity.
  - cbn. destruct (List.length (fold_left collect eos []) =? 0)%nat; rewrite ?H1, ?H2;
      [ reflexivity | ].
    destruct (json_Marshal_slice (fold_left collect eos [])); rewrite ?H1, ?H2; reflexivity.
  - cbn. destruct (json_Marshal other); reflexivity.
Qed.

End CodecResults.

(** ** More on the value codec: what the payload holds *)

Section CodecPayloads.
Context `{R : Runtime}.

Ltac exec :=
  cbv [getBytesFromValue ok_value array_value type_switch bind ret panic deref String_
       Errorf Warnf make_bytes append Suppressed structured platform_integer];
  cbn [DataValue.Value DataValue.Status NodeDef.NodeID ExtensionObject.Value
       ExtensionObject.TypeID ExpandedNodeID.NodeID errors_Is negb fst snd app].

Lemma decodable_by_representations (v : list (option ExtensionObject.t)) :
  decodable v =
  flat_map (fun r => match r with Some value => [value] | None => [] end)
    (map decoded_representation v).
Proof.
  induction v as [ | eo v IH ]; cbn [decodable map flat_map]; [ reflexivity | ].
  rewrite IH. now destruct (decoded_representation eo).
Qed.

(** X6. Of an array of structured values the codec looks at the
    decoded representations only: two arrays whose elements have, one
    by one, the same decoded representation (type identifiers and
    encoding masks may differ, nil pointers may stand for undecodable
    elements) give the same result and the same log. *)
Theorem array_result_depends_on_representations_only
  (v1 v2 : list (option ExtensionObject.t)) (nodeDef : NodeDef.t) (log : Logger) :
  map decoded_representation v1 = map decoded_representation v2 ->
  getBytesFromValue (array_value v1) nodeDef log =
  getBytesFromValue (array_value v2) nodeDef log.
Proof.
  intros Hsame. rewrite !array_decodes, !decodable_by_representations, Hsame.
  replace (List.length v1) with (List.length v2); [ reflexivity | ].
  rewrite <- (length_map decoded_representation v1), Hsame. symmetry. apply length_map.
Qed.

(** The codec at a structured value returns a payload exactly when
    [json.Marshal] encodes its decoded representation. *)
Lemma structured_payload (value : iface) (nodeDef : NodeDef.t) (log : Logger) (b : list byte) :
  fst (getBytesFromValue (ok_value (structured value)) nodeDef log)
  = Returned (Some b, "string") <->
  json_Marshal value = inl b.
Proof.
  exec. destruct (json_Marshal value) as [ b' | err ].
  - cbn. split; [ now intros [= ->] | now intros [= ->] ].
  - cbn. split; discriminate.
Qed.

Lemma json_elements_join (l : list iface) (payloads : list (list byte)) :
  Forall2 (fun value b => json_Marshal value = inl b) l payloads ->
  json_elements l = inl (join (bytes_of_string ",") payloads).
Proof.
  induction 1 as [ | value b l payloads Hb Hl IH ]; cbn [json_elements join].
  - reflexivity.
  - rewrite Hb. destruct Hl as [ | value' b' l payloads Hb' Hl ]; [ reflexivity | ].
    now rewrite IH.
Qed.

(** X7. The payload of an array is put together from the payloads of
    its decodable elements: when each of them, decoded on its own as a
    structured value, gives a payload, the array gives these payloads
    in order, separated by commas and enclosed in brackets, with tag
    type "string" and nothing logged. *)
Theorem array_payload_joins_element_payloads
  (v : list (option ExtensionObject.t)) (payloads : list (list byte))
  (nodeDef : NodeDef.t) (log : Logger) :
  decodable v <> [] ->
  Forall2
    (fun value b =>
       fst (getBytesFromValue (ok_value (structured value)) nodeDef log)
       = Returned (Some b, "string"))
    (decodable v) payloads ->
  getBytesFromValue (array_value v) nodeDef log =
  (Returned
     (Some (bytes_of_string "[" ++ join (bytes_of_string ",") payloads ++ bytes_of_string "]")%list,
      "string"),
   log).
Proof.
  intros Hsome Helems. rewrite array_decodes.
  assert (Hjson : json_Marshal_slice (decodable v) =
                  inl (bytes_of_string "[" ++ join (bytes_of_string ",") payloads
                       ++ bytes_of_string "]")%list).
  { unfold json_Marshal_slice. rewrite (json_elements_join (payloads := payloads));
      [ reflexivity | ].
    eapply Forall2_impl; [ | exact Helems ].
    intros value b. apply structured_payload. }
  rewrite Hjson. destruct (decodable v); [ contradiction | reflexivity ].
Qed.

(** X8. One element that does not encode suppresses the whole array:
    when [json.Marshal] fails on a decodable element, nothing of the
    array is emitted, the elements that would encode included. *)
Theorem one_bad_element_suppresses_the_array
  (v : list (option ExtensionObject.t)) (value : iface) (err : error)
  (nodeDef : NodeDef.t) (log : Logger) :
  In value (decodable v) ->
  json_Marshal value = inr err ->
  fst (getBytesFromValue (array_value v) nodeDef log) = Returned Suppressed.
Proof.
  intros Hin Hbad. rewrite array_decodes.
  assert (Hfails : exists err', json_elements (decodable v) = inr err').
  { induction (decodable v) as [ | x l IH ]; [ destruct Hin | ].
    cbn [json_elements]. destruct Hin as [ -> | Hin ].
    - rewrite Hbad. eauto.
    - destruct (json_Marshal x); [ | eauto ].
      destruct l as [ | y l ]; [ destruct Hin | ].
      destruct (IH Hin) as (err' & ->). eauto. }
  destruct Hfails as (err' & Hfails).
  unfold json_Marshal_slice. rewrite Hfails.
  destruct (decodable v); [ destruct Hin | reflexivity ].
Qed.

(** The text the codec writes for an integer in the range of its type. *)
Lemma integer_text (t : IntType) (v : Z) (nodeDef : NodeDef.t) (log : Logger) :
  MinOf t <= v <= MaxOf t ->
  exists s : string,
    getBytesFromValue (ok_value (integer t v)) nodeDef log
    = (Returned (Some (bytes_of_string s), "number"), log) /\
    base10_text s v.
Proof.
  intros Hv.
  destruct t; cbn [integer]; exec;
    match goal with
    | |- context [strconv.FormatInt (signed ?w v)] =>
        exists (strconv.FormatInt (signed w v)); split; [ reflexivity | ];
        rewrite (signed_in_range (t := _) (w := w) (v := v)) by (cbn; tauto || exact Hv);
        apply strconv_facts.FormatInt_base10_text
    | |- context [strconv.FormatUint (unsigned ?w v)] =>
        exists (strconv.FormatUint (unsigned w v)); split; [ reflexivity | ];
        rewrite (unsigned_in_range (t := _) (w := w) (v := v)) by (cbn; tauto || exact Hv);
        apply strconv_facts.FormatUint_base10_text
    end;
    cbv [MinOf MaxOf] in Hv; lia.
Qed.

Lemma bytes_of_string_inj (s1 s2 : string) :
  bytes_of_string s1 = bytes_of_string s2 -> s1 = s2.
Proof.
  unfold bytes_of_string. intros H.
  rewrite <- (string_of_list_byte_of_string s1), <- (string_of_list_byte_of_string s2).
  now rewrite H.
Qed.

(** X9. The payload of an integer tells its value, whatever the width
    and signedness it was read with: two integers, each in the range of
    its type, that decode to the same payload are the same number. *)
Theorem integer_payload_determines_value
  (t1 t2 : IntType) (v1 v2 : Z) (nodeDef : NodeDef.t) (log : Logger) :
  MinOf t1 <= v1 <= MaxOf t1 ->
  MinOf t2 <= v2 <= MaxOf t2 ->
  fst (getBytesFromValue (ok_value (integer t1 v1)) nodeDef log) =
  fst (getBytesFromValue (ok_value (integer t2 v2)) nodeDef log) ->
  v1 = v2.
Proof.
  intros H1 H2 Hsame.
  destruct (integer_text t1 nodeDef log H1) as (s1 & E1 & Hs1 & _).
  destruct (integer_text t2 nodeDef log H2) as (s2 & E2 & Hs2 & _).
  rewrite E1, E2 in Hsame. cbn [fst] in Hsame.
  injection Hsame as Hsame. apply bytes_of_string_inj in Hsame. subst s2.
  congruence.
Qed.

(** X10. The platform integers [int] and [uint], 64 bits wide, decode
    like the sized ones: tag type "number" and the base-10 text of the
    value as payload. *)
Theorem platform_integer_payload_is_base10_text
  (is_signed : bool) (v : Z) (nodeDef : NodeDef.t) (log : Logger) :
  platform_range is_signed v ->
  exists s : string,
    getBytesFromValue (ok_value (platform_integer is_signed v)) nodeDef log
    = (Returned (Some (bytes_of_string s), "number"), log) /\
    base10_text s v.
Proof.
  intros Hv. destruct is_signed; cbn [platform_range] in Hv; exec.
  - exists (strconv.Itoa (signed 64 v)). split; [ reflexivity | ].
    rewrite (signed_in_range (t := Int64) (w := 64) (v := v)).
    + now apply strconv_facts.Itoa_base10_text.
    + cbn. tauto.
    + cbv [MinOf MaxOf]. lia.
  - exists (strconv.FormatUint (unsigned 64 v)). split; [ reflexivity | ].
    rewrite (unsigned_in_range (t := Uint64) (w := 64) (v := v)).
    + now apply strconv_facts.FormatUint_base10_text.
    + cbn. tauto.
    + cbv [MinOf MaxOf]. lia.
Qed.

Lemma length_bytes_of_string (s : string) :
  List.length (bytes_of_string s) = String.length s.
Proof.
  unfold bytes_of_string, list_byte_of_string.
  induction s as [ | c s IH ]; cbn [list_ascii_of_string map List.length String.length];
    [ reflexivity | now rewrite IH ].
Qed.

(** X11. A text value is passed on byte for byte: the payload has the
    length of the text and reads back as the text, so that different
    texts give different payloads; the empty text gives the empty
    payload, which is not the nil payload. *)
Theorem text_payload_is_the_text (v : string) (nodeDef : NodeDef.t) (log : Logger) :
  exists l : list byte,
    getBytesFromValue (ok_value (VString v)) nodeDef log
    = (Returned (Some l, "string"), log) /\
    string_of_list_byte l = v /\
    List.length l = String.length v.
Proof.
  exists (bytes_of_string v). exec. repeat split.
  - apply string_of_list_byte_of_string.
  - apply length_bytes_of_string.
Qed.

End CodecPayloads.

(** ** More on the read coordinator *)

Section ReadOutcomes.
Context `{SH : Session}.

(** X12. Every call of [Read] calls the session handle's read once,
    first, and then [Close] at most once: once when the read failed
    with a SessionFatal error, and not at all otherwise. *)
Theorem Read_calls_read_then_maybe_Close
  (w : World) (ctx : Context) (req : option ReadRequest) :
  (exists err,
     snd (client_reply w ctx req) = Some err /\ SessionFatal err /\
     calls (snd (Read w ctx req)) = (calls w ++ [CallClientRead; CallClose])%list) \/
  ((forall err, snd (client_reply w ctx req) = Some err -> ~ SessionFatal err) /\
   calls (snd (Read w ctx req)) = (calls w ++ [CallClientRead])%list).
Proof.
  unfold client_reply.
  destruct (Client_Read (OPCUAConnection.Client (conn w)) ctx req)
    as [ [ resp [ err | ] ] client' ] eqn:E; cbn [fst snd].
  - rewrite (Read_failure w ctx req E).
    destruct (existsb (errors_Is err) fatal_statuses) eqn:Hfatal.
    + left. exists err. repeat split. now apply SessionFatal_decided.
    + right. split; [ | reflexivity ].
      intros err' [= <-] H. apply SessionFatal_decided in H. congruence.
  - rewrite (Read_success w ctx req E). right. split; [ discriminate | reflexivity ].
Qed.

(** X13. [Read] returns a response or an error, never both: the
    response is the session handle's, given back only when the handle
    reported no error, with nothing logged; when the handle reported an
    error, whatever response came with it is dropped and the error
    returned is the handle's or [service.ErrNotConnected]. *)
Theorem Read_returns_response_or_error
  (w : World) (ctx : Context) (req : option ReadRequest) :
  match client_reply w ctx req with
  | (resp, None) =>
      fst (Read w ctx req) = (resp, None) /\
      OPCUAConnection.Log (conn (snd (Read w ctx req))) = OPCUAConnection.Log (conn w)
  | (_, Some err) =>
      fst (Read w ctx req) = (None, Some err) \/
      fst (Read w ctx req) = (None, Some service.ErrNotConnected)
  end.
Proof.
  unfold client_reply.
  destruct (Client_Read (OPCUAConnection.Client (conn w)) ctx req)
    as [ [ resp [ err | ] ] client' ] eqn:E; cbn [fst snd].
  - rewrite (Read_failure w ctx req E).
    destruct (existsb (errors_Is err) fatal_statuses); [ now right | now left ].
  - rewrite (Read_success w ctx req E). now split.
Qed.

(** X14. On a failed read the caller is told "not connected" exactly
    when the error is SessionFatal or is [service.ErrNotConnected]
    itself; in the second case the error is only passed through, and
    [Close] is not called. *)
Theorem Read_signals_not_connected_iff
  (w : World) (ctx : Context) (req : option ReadRequest)
  (resp : option ReadResponse) (err : error) (client' : Client) :
  Client_Read (OPCUAConnection.Client (conn w)) ctx req = ((resp, Some err), client') ->
  (snd (fst (Read w ctx req)) = Some service.ErrNotConnected <->
   SessionFatal err \/ err = service.ErrNotConnected) /\
  (err = service.ErrNotConnected ->
   close_count (calls (snd (Read w ctx req))) = close_count (calls w)).
Proof.
  intros E. rewrite (Read_failure w ctx req E).
  destruct (existsb (errors_Is err) fatal_statuses) eqn:Hfatal; cbn [fst snd calls].
  - split.
    + split; [ | reflexivity ]. intros _. left. now apply SessionFatal_decided.
    + intros ->. discriminate Hfatal.
  - split.
    + split.
      * intros [= ->]. now right.
      * intros [ H | -> ]; [ | reflexivity ].
        apply SessionFatal_decided in H. congruence.
    + intros _. rewrite close_count_app. cbn. lia.
Qed.

End ReadOutcomes.

(** ** The further properties at work *)

Section Instances.
Import Fixture.

(** X1 at the int32 of the tests. *)
Lemma result_is_suppressed_or_tagged_witness :
  (Some (bytes_of_string "42"), "number") = Suppressed \/
  (Some (bytes_of_string "42") <> None /\ In "number" tagTypes).
Proof.
  exact (@result_is_suppressed_or_tagged Fixture.runtime
           (dataValue ua.StatusOK (VInt32 42)) nodeDef [] []
           (Some (bytes_of_string "42")) "number" eq_refl).
Defined.

(** X3 at a logger that already holds a call of that format. *)
Lemma payload_is_empty_is_never_logged_witness :
  let e := {| level := LevelError; format := payload_is_empty_format; args := [] |} in
  In e (snd (getBytesFromValue (dataValue ua.StatusBadNodeIDUnknown (VInt32 42)) nodeDef [e])) /\
  In e [e].
Proof.
  cbv zeta.
  assert (Hin : In {| level := LevelError; format := payload_is_empty_format; args := [] |}
                  (snd (getBytesFromValue
                          (dataValue ua.StatusBadNodeIDUnknown (VInt32 42)) nodeDef
                          [ {| level := LevelError; format := payload_is_empty_format;
                               args := [] |} ])))
    by (left; reflexivity).
  split; [ exact Hin | ].
  exact (@payload_is_empty_is_never_logged Fixture.runtime
           (dataValue ua.StatusBadNodeIDUnknown (VInt32 42)) nodeDef
           [ {| level := LevelError; format := payload_is_empty_format; args := [] |} ]
           {| level := LevelError; format := payload_is_empty_format; args := [] |}
           Hin eq_refl).
Defined.

(** X4 at the undecodable structured value of the tests. *)
Lemma complete_input_never_panics_witness :
  exists r log',
    getBytesFromValue (dataValue ua.StatusOK (VExtensionObject (Some (undecodable 4 202))))
      nodeDef []
    = (Returned r, log').
Proof.
  refine (@complete_input_never_panics Fixture.runtime
            {| DataValue.Value := Some (VExtensionObject (Some (undecodable 4 202)));
               DataValue.Status := ua.StatusOK |}
            nodeDef (NewNumericNodeID 0 1001) [] eq_refl _).
  intros v [= <-]. reflexivity.
Defined.

(** X5 at two tag contexts and a value with a bad status. *)
Lemma result_does_not_depend_on_nodeDef_witness :
  let other := {| NodeDef.NodeID := Some (NewNumericNodeID 4 7); NodeDef.BrowseName := "" |} in
  fst (getBytesFromValue (dataValue ua.StatusBadNodeIDUnknown (VInt32 42)) nodeDef []) =
  fst (getBytesFromValue (dataValue ua.StatusBadNodeIDUnknown (VInt32 42)) other []).
Proof.
  exact (@result_does_not_depend_on_nodeDef Fixture.runtime
           (dataValue ua.StatusBadNodeIDUnknown (VInt32 42)) nodeDef
           {| NodeDef.NodeID := Some (NewNumericNodeID 4 7); NodeDef.BrowseName := "" |}
           (NewNumericNodeID 0 1001) (NewNumericNodeID 4 7) [] eq_refl eq_refl).
Defined.

(** X6 at an array with a nil pointer and the array with an
    undecodable element in its place. *)
Lemma array_result_depends_on_representations_only_witness :
  getBytesFromValue (array_value [None; Some (filter_object F0_5)]) nodeDef [] =
  getBytesFromValue
    (array_value [Some (undecodable 4 202); Some (filter_object F0_5)]) nodeDef [].
Proof.
  exact (@array_result_depends_on_representations_only Fixture.runtime
           [None; Some (filter_object F0_5)]
           [Some (undecodable 4 202); Some (filter_object F0_5)]
           nodeDef [] eq_refl).
Defined.

(** X7 at an array of two decoded filters around a nil pointer. *)
Lemma array_payload_joins_element_payloads_witness :
  getBytesFromValue
    (array_value [Some (filter_object F1_5); None; Some (filter_object F1_5)]) nodeDef []
  = (Returned
       (Some (bytes_of_string "[" ++
              join (bytes_of_string ",")
                [bytes_of_string filter_1_5_json; bytes_of_string filter_1_5_json] ++
              bytes_of_string "]")%list,
        "string"),
     []).
Proof.
  refine (@array_payload_joins_element_payloads Fixture.runtime
            [Some (filter_object F1_5); None; Some (filter_object F1_5)]
            [bytes_of_string filter_1_5_json; bytes_of_string filter_1_5_json]
            nodeDef [] _ _).
  - discriminate.
  - repeat constructor.
Defined.

(** X8 at an array with a filter that encodes and one with a NaN
    deadband. *)
Lemma one_bad_element_suppresses_the_array_witness :
  fst (getBytesFromValue
         (array_value [Some (filter_object F1_5); Some (filter_object NaN)]) nodeDef [])
  = Returned Suppressed.
Proof.
  refine (@one_bad_element_suppresses_the_array Fixture.runtime
            [Some (filter_object F1_5); Some (filter_object NaN)]
            {| Trigger := 1; DeadbandType := 1; DeadbandValue := NaN |}
            (ErrorString "json: unsupported value: NaN")
            nodeDef [] _ eq_refl).
  right. left. reflexivity.
Defined.

(** X9 at the number 100 read as an int8 and as a uint64. *)
Lemma integer_payload_determines_value_witness :
  MinOf Int8 <= 100 <= MaxOf Int8 /\
  MinOf Uint64 <= 100 <= MaxOf Uint64 /\
  fst (getBytesFromValue (ok_value (VInt8 100)) nodeDef []) =
  fst (getBytesFromValue (ok_value (VUint64 100)) nodeDef []) /\
  100 = 100.
Proof.
  assert (H1 : MinOf Int8 <= 100 <= MaxOf Int8) by (cbv [MinOf MaxOf]; lia).
  assert (H2 : MinOf Uint64 <= 100 <= MaxOf Uint64) by (cbv [MinOf MaxOf]; lia).
  refine (conj H1 (conj H2 (conj eq_refl _))).
  exact (@integer_payload_determines_value Fixture.runtime Int8 Uint64 100 100 nodeDef []
           H1 H2 eq_refl).
Defined.

(** X10 at the least [int]. *)
Lemma platform_integer_payload_is_base10_text_witness :
  exists s : string,
    getBytesFromValue (ok_value (VInt (- 2 ^ 63))) nodeDef []
    = (Returned (Some (bytes_of_string s), "number"), []) /\
    base10_text s (- 2 ^ 63).
Proof.
  refine (@platform_integer_payload_is_base10_text Fixture.runtime true (- 2 ^ 63) nodeDef [] _).
  cbv [platform_range]. lia.
Defined.

(** X14 at a session handle that reports [service.ErrNotConnected]
    itself. *)
Lemma Read_signals_not_connected_iff_witness :
  let w := world [(None, Some service.ErrNotConnected)] in
  (snd (fst (Read w tt None)) = Some service.ErrNotConnected <->
   SessionFatal service.ErrNotConnected \/ service.ErrNotConnected = service.ErrNotConnected) /\
  (service.ErrNotConnected = service.ErrNotConnected ->
   close_count (calls (snd (Read w tt None))) = close_count (calls w)).
Proof.
  exact (@Read_signals_not_connected_iff Fixture.session
           (world [(None, Some service.ErrNotConnected)]) tt None
           None service.ErrNotConnected [] eq_refl).
Defined.

End Instances.
